(** * generateProxy.js: the proxy manager, embedded and verified

    The script keeps one working proxy in [.env] under the key
    [PROXY_SERVER].  On start and then on a ten minute timer it checks the
    configured proxy; when the check fails it downloads two proxy lists,
    probes the candidates one after the other, writes the working ones to
    [output/valid_proxies.txt] and installs one of them, picked at random.

    The embedding follows the source function by function.

    - JavaScript strings are sequences of UTF-16 code units ([list N]); the
      string methods the script calls ([startsWith], [includes], [trim],
      [split], [join]) are written out on them.
    - Every function of the script is a term of a small free monad [prog]:
      synchronous effects (file system, console, [Math.random], building a
      proxy agent, [setInterval]) are [Sync] nodes, the one place where an
      [async] function really suspends ([await axios.get]) is an [Await]
      node, and [throw]/[try]/[catch] are [Throw] and [try_catch].
    - [run] executes a program against an environment that answers the
      requests (the answers may change from one request to the next);
      [advance]/[step] execute it the way the event loop does, up to the
      next pending request, so that timer ticks can interleave. *)

From Stdlib Require Import List NArith ZArith Bool Lia String Ascii Arith.
Import ListNotations.
Open Scope list_scope.

(* ================================================================== *)
(** * 1. JavaScript strings *)
(* ================================================================== *)

(** A string is its sequence of UTF-16 code units. *)
Definition code_unit := N.
Definition jsstr := list code_unit.

(** String literals of the script, written as Rocq strings. *)
Definition js (s : string) : jsstr :=
  map N_of_ascii (list_ascii_of_string s).

Fixpoint jsstr_eqb (a b : jsstr) : bool :=
  match a, b with
  | [], [] => true
  | x :: a', y :: b' => N.eqb x y && jsstr_eqb a' b'
  | _, _ => false
  end.

Definition jsstr_eq_dec : forall a b : jsstr, {a = b} + {a <> b} :=
  list_eq_dec N.eq_dec.

(** [s.startsWith(prefix)] *)
Fixpoint startsWith (s prefix : jsstr) : bool :=
  match prefix, s with
  | [], _ => true
  | p :: prefix', c :: s' => N.eqb p c && startsWith s' prefix'
  | _ :: _, [] => false
  end.

(** [s.includes(sub)] *)
Fixpoint includes (s sub : jsstr) : bool :=
  startsWith s sub ||
  match s with
  | [] => false
  | _ :: s' => includes s' sub
  end.

(** ECMAScript WhiteSpace and LineTerminator code points, the characters
    [String.prototype.trim] strips: TAB, LF, VT, FF, CR, SP, NBSP, U+1680,
    U+2000..U+200A, LS, PS, U+202F, U+205F, U+3000 and the BOM. *)
Definition isWhiteSpace (c : code_unit) : bool :=
  ((9 <=? c) && (c <=? 13) || (c =? 32) || (c =? 160) || (c =? 5760)
   || (8192 <=? c) && (c <=? 8202) || (c =? 8232) || (c =? 8233)
   || (c =? 8239) || (c =? 8287) || (c =? 12288) || (c =? 65279))%N.

Fixpoint trimStart (s : jsstr) : jsstr :=
  match s with
  | [] => []
  | c :: s' => if isWhiteSpace c then trimStart s' else s
  end.

Definition trimEnd (s : jsstr) : jsstr := rev (trimStart (rev s)).

(** [s.trim()] *)
Definition trim (s : jsstr) : jsstr := trimEnd (trimStart s).

(** [s.split(sep)] for a non-empty separator.  [skip] counts the code units
    of a separator just matched that are still to be passed over, [cur] is
    the piece being read, in reverse. *)
Fixpoint split_go (sep s : jsstr) (skip : nat) (cur : jsstr) : list jsstr :=
  match s with
  | [] => [rev cur]
  | c :: s' =>
      match skip with
      | S k => split_go sep s' k cur
      | O =>
          if startsWith s sep
          then rev cur :: split_go sep s' (List.length sep - 1) []
          else split_go sep s' 0 (c :: cur)
      end
  end.

Definition split (s sep : jsstr) : list jsstr := split_go sep s 0 [].

(** [pieces.join(sep)] *)
Fixpoint join (pieces : list jsstr) (sep : jsstr) : jsstr :=
  match pieces with
  | [] => []
  | [p] => p
  | p :: rest => p ++ sep ++ join rest sep
  end.

(** The newline, [js "\n"] in the source. *)
Definition NL : jsstr := [10%N].

(* ================================================================== *)
(** * 2. Values, effects and the program monad *)
(* ================================================================== *)

(** The three places of the file system the script touches:
    [path.join(process.cwd(), '.env')], [OUTPUT_DIR] and [OUTPUT_FILE]. *)
Inductive path := ENV_PATH | OUTPUT_DIR | OUTPUT_FILE.

Definition path_eqb (p q : path) : bool :=
  match p, q with
  | ENV_PATH, ENV_PATH | OUTPUT_DIR, OUTPUT_DIR | OUTPUT_FILE, OUTPUT_FILE => true
  | _, _ => false
  end.

(** A thrown value; the script only ever reads its [message]. *)
Record js_error := { message : jsstr }.

(** What [resp.data] can be: a string, or some other value, of which only
    its truthiness matters (calling [.split] on it throws a TypeError). *)
Inductive js_value :=
| VString (s : jsstr)
| VOther (truthy : bool).

Definition is_truthy (v : js_value) : bool :=
  match v with
  | VString [] => false
  | VString (_ :: _) => true
  | VOther b => b
  end.

Inductive agent_kind := HttpProxyAgent | HttpsProxyAgent.

Record agent := { agent_class : agent_kind; agent_proxy : jsstr }.

(** One [axios.get(url, config)]. *)
Record request := {
  req_url : jsstr;
  req_timeout : N;
  req_agent : option agent   (* httpAgent and httpsAgent, always the same *)
}.

Record response := { status : Z; data : js_value }.

(** How the promise of [axios.get] settles: with a response, or rejected
    (network error, timeout, refused connection, status refused by axios). *)
Inductive axios_result :=
| Resolved (resp : response)
| Rejected (err : js_error).

Inductive level := INFO | WARN | ERROR.

(** The console lines of the script, one constructor per message. *)
Inductive log_msg :=
| CreatedDirectory
| UpdatedEnv (proxyUrl : jsstr)
| FetchingProxies
| GetSource (src : jsstr)
| CouldNotFetch (src : jsstr) (msg : jsstr)
| TotalFetched (n : nat)
| ValidatingFetched
| ProxyOk (proxy : jsstr)
| ProxyFail (proxy : jsstr)
| FoundValid (n : nat)
| NoProxiesFound
| NoValidProxies
| WroteValidProxies
| NoProxyInEnv
| NoLongerValid
| StillValid (currentProxy : jsstr).

(** Synchronous effects, indexed by the type of their answer. *)
Inductive sync_op : Type -> Type :=
| ExistsSync (p : path) : sync_op bool
| MkdirSync (p : path) : sync_op (js_error + unit)
| ReadFileSync (p : path) : sync_op (js_error + jsstr)
| WriteFileSync (p : path) (content : jsstr) : sync_op (js_error + unit)
| NewProxyAgent (k : agent_kind) (proxyUrl : jsstr) : sync_op (js_error + agent)
| MathRandom : sync_op N
| Console (l : level) (m : log_msg) : sync_op unit
| SetInterval (ms : N) : sync_op unit.

(** Programs: return, throw, a synchronous effect, or an awaited request. *)
Inductive prog (A : Type) : Type :=
| Ret (a : A)
| Throw (e : js_error)
| Sync {X : Type} (o : sync_op X) (k : X -> prog A)
| Await (r : request) (k : axios_result -> prog A).

Arguments Ret {A} a.
Arguments Throw {A} e.
Arguments Sync {A X} o k.
Arguments Await {A} r k.

Fixpoint bind {A B : Type} (p : prog A) (f : A -> prog B) : prog B :=
  match p with
  | Ret a => f a
  | Throw e => Throw e
  | Sync o k => Sync o (fun x => bind (k x) f)
  | Await r k => Await r (fun x => bind (k x) f)
  end.

(** [try { p } catch (e) { h e }] *)
Fixpoint try_catch {A : Type} (p : prog A) (h : js_error -> prog A) : prog A :=
  match p with
  | Ret a => Ret a
  | Throw e => h e
  | Sync o k => Sync o (fun x => try_catch (k x) h)
  | Await r k => Await r (fun x => try_catch (k x) h)
  end.

Declare Scope prog_scope.
Delimit Scope prog_scope with prog.
Notation "x <- c ;; k" := (bind c (fun x => k))
  (at level 61, c at next level, right associativity) : prog_scope.
Notation "c ;; k" := (bind c (fun _ => k))
  (at level 61, right associativity) : prog_scope.
Open Scope prog_scope.

Definition perform {X : Type} (o : sync_op X) : prog X := Sync o Ret.

(** An operation that may throw: the error is raised in the program. *)
Definition perform_throwing {X : Type} (o : sync_op (js_error + X)) : prog X :=
  Sync o (fun r => match r with inl e => Throw e | inr x => Ret x end).

Definition existsSync (p : path) : prog bool := perform (ExistsSync p).
Definition mkdirSync (p : path) : prog unit := perform_throwing (MkdirSync p).
Definition readFileSync (p : path) : prog jsstr := perform_throwing (ReadFileSync p).
Definition writeFileSync (p : path) (s : jsstr) : prog unit :=
  perform_throwing (WriteFileSync p s).
Definition console_log (m : log_msg) : prog unit := perform (Console INFO m).
Definition console_warn (m : log_msg) : prog unit := perform (Console WARN m).
Definition console_error (m : log_msg) : prog unit := perform (Console ERROR m).
Definition new_agent (k : agent_kind) (proxyUrl : jsstr) : prog agent :=
  perform_throwing (NewProxyAgent k proxyUrl).
Definition math_random : prog N := perform MathRandom.
Definition setInterval (ms : N) : prog unit := perform (SetInterval ms).

(** [await axios.get(url, config)]: a rejected promise throws at the await. *)
Definition axios_get (r : request) : prog response :=
  Await r (fun res =>
    match res with
    | Resolved resp => Ret resp
    | Rejected err => Throw err
    end).

(** [data.split(sep)] on a value that may not be a string. *)
Definition data_split (v : js_value) (sep : jsstr) : prog (list jsstr) :=
  match v with
  | VString s => Ret (split s sep)
  | VOther _ => Throw {| message := js "resp.data.split is not a function" |}
  end.

(** ** Doubles

    [Math.random()] is a double [k / 2^53] with [k < 2^53]; the program
    carries the numerator [k].  A list length [n] is an exact double, and
    [Math.random() * n] is the exact product [k * n / 2^53] rounded to 53
    significant bits, ties to even; [Math.floor] then drops the fraction.
    [round53] does the rounding on the numerator. *)
Definition round53 (m : N) : N :=
  (if m <? 2 ^ 53 then m
   else
     let s := N.log2 m - 52 in
     let q := m / 2 ^ s in
     let r := m mod 2 ^ s in
     let half := 2 ^ (s - 1) in
     let up := (half <? r) || ((r =? half) && N.odd q) in
     (if up then q + 1 else q) * 2 ^ s)%N.

(** [Math.floor(x * n)] for [x = k / 2^53]. *)
Definition floor_mul (k : N) (n : nat) : nat :=
  N.to_nat (round53 (k * N.of_nat n) / 2 ^ 53)%N.

(** The value of a template literal hole: [undefined] prints as such. *)
Definition template (v : option jsstr) : jsstr :=
  match v with
  | Some s => s
  | None => js "undefined"
  end.

(** [!v] for a value that is a string, [null] or [undefined]. *)
Definition falsy (v : option jsstr) : bool :=
  match v with
  | None | Some [] => true
  | Some (_ :: _) => false
  end.

(** [allProxies.add(x)] on a [Set], kept in insertion order. *)
Definition set_add (allProxies : list jsstr) (x : jsstr) : list jsstr :=
  if in_dec jsstr_eq_dec x allProxies then allProxies else allProxies ++ [x].

(* ================================================================== *)
(** * 3. The script *)
(* ================================================================== *)

Definition GITHUB_SOURCES : list jsstr :=
  [ js "https://raw.githubusercontent.com/TheSpeedX/PROXY-List/master/http.txt";
    js "https://raw.githubusercontent.com/Zaeem20/FREE_PROXIES_LIST/master/http.txt" ].

Definition CHECK_INTERVAL_MS : N := 10 * 60 * 1000.

Definition TEST_URL : jsstr := js "https://httpbin.org/ip".

Definition ENV_KEY : jsstr := js "PROXY_SERVER".

(** The template literal [`${ENV_KEY}=`]. *)
Definition ENV_PREFIX : jsstr := ENV_KEY ++ js "=".

Definition ensureOutputDir : prog unit :=
  ex <- existsSync OUTPUT_DIR;;
  if negb ex then
    mkdirSync OUTPUT_DIR;;
    console_log CreatedDirectory
  else Ret tt.

(** The [for] loop of [getCurrentProxyFromEnv]: the first line that, once
    trimmed, starts with [PROXY_SERVER=] decides; [None] is [null] (or the
    [undefined] of a missing array element). *)
Fixpoint find_env_line (envLines : list jsstr) : option jsstr :=
  match envLines with
  | [] => None
  | line :: rest =>
      let line := trim line in
      if startsWith line ENV_PREFIX
      then nth_error (split line (js "=")) 1
      else find_env_line rest
  end.

Definition getCurrentProxyFromEnv : prog (option jsstr) :=
  ex <- existsSync ENV_PATH;;
  if negb ex then Ret None
  else
    content <- readFileSync ENV_PATH;;
    Ret (find_env_line (split content NL)).

(** The lines [setEnvProxy] writes, from the lines it read. *)
Definition updated_env_lines (envLines : list jsstr) (proxyUrl : jsstr) : list jsstr :=
  filter (fun line => negb (startsWith line ENV_PREFIX)) envLines
  ++ [ENV_PREFIX ++ proxyUrl].

Definition setEnvProxy (proxyUrl : jsstr) : prog unit :=
  ex <- existsSync ENV_PATH;;
  envLines <- (if ex then content <- readFileSync ENV_PATH;; Ret (split content NL)
               else Ret []);;
  writeFileSync ENV_PATH (join (updated_env_lines envLines proxyUrl) NL);;
  console_log (UpdatedEnv proxyUrl).

Definition probe_request (a : agent) : request :=
  {| req_url := TEST_URL; req_timeout := 5000; req_agent := Some a |}.

Definition validateSingleProxy (proxyUrl : jsstr) : prog bool :=
  try_catch
    (let protocol := hd [] (split proxyUrl (js "://")) in
     a <- (if jsstr_eqb protocol (js "https")
           then new_agent HttpsProxyAgent proxyUrl
           else new_agent HttpProxyAgent proxyUrl);;
     resp <- axios_get (probe_request a);;
     if (status resp =? 200)%Z then Ret true else Ret false)
    (fun _ => Ret false).

Definition source_request (src : jsstr) : request :=
  {| req_url := src; req_timeout := 15000; req_agent := None |}.

(** The body of the inner [for (const line of lines)]. *)
Definition add_line (allProxies : list jsstr) (line : jsstr) : list jsstr :=
  if negb (includes line (js "://"))
  then set_add allProxies (js "http://" ++ line)
  else set_add allProxies line.

(** [resp.data.split('\n').map(l => l.trim()).filter(Boolean)], given the
    pieces of the split. *)
Definition candidate_lines (pieces : list jsstr) : list jsstr :=
  filter (fun l => negb (jsstr_eqb l [])) (map trim pieces).

(** One turn of the loop over [GITHUB_SOURCES].  The set is threaded through;
    nothing can throw once the first [add] has happened, so the handler sees
    the set as it was before the [try]. *)
Definition fetch_source (src : jsstr) (allProxies : list jsstr) : prog (list jsstr) :=
  try_catch
    (console_log (GetSource src);;
     resp <- axios_get (source_request src);;
     if (status resp =? 200)%Z && is_truthy (data resp) then
       pieces <- data_split (data resp) NL;;
       Ret (fold_left add_line (candidate_lines pieces) allProxies)
     else Ret allProxies)
    (fun error =>
       console_warn (CouldNotFetch src (message error));;
       Ret allProxies).

Fixpoint fetch_sources (srcs : list jsstr) (allProxies : list jsstr) : prog (list jsstr) :=
  match srcs with
  | [] => Ret allProxies
  | src :: rest =>
      allProxies' <- fetch_source src allProxies;;
      fetch_sources rest allProxies'
  end.

Definition fetchGitHubProxies : prog (list jsstr) :=
  console_log FetchingProxies;;
  result <- fetch_sources GITHUB_SOURCES [];;
  console_log (TotalFetched (List.length result));;
  Ret result.

(** The loop of [validateProxies], with [valid] as accumulator. *)
Fixpoint validate_loop (proxyList : list jsstr) (valid : list jsstr) : prog (list jsstr) :=
  match proxyList with
  | [] => Ret valid
  | proxy :: rest =>
      if 100 <=? List.length valid then Ret valid
      else
        isOk <- validateSingleProxy proxy;;
        if isOk then
          console_log (ProxyOk proxy);;
          validate_loop rest (valid ++ [proxy])
        else
          console_log (ProxyFail proxy);;
          validate_loop rest valid
  end.

Definition validateProxies (proxyList : list jsstr) : prog (list jsstr) :=
  console_log ValidatingFetched;;
  valid <- validate_loop proxyList [];;
  console_log (FoundValid (List.length valid));;
  Ret valid.

Definition scrapeValidateAndInject : prog bool :=
  allProxies <- fetchGitHubProxies;;
  if (List.length allProxies =? 0) then
    console_error NoProxiesFound;;
    Ret false
  else
    valid <- validateProxies allProxies;;
    if (List.length valid =? 0) then
      console_error NoValidProxies;;
      Ret false
    else
      writeFileSync OUTPUT_FILE (join valid NL);;
      console_log WroteValidProxies;;
      k <- math_random;;
      let chosen := nth_error valid (floor_mul k (List.length valid)) in
      setEnvProxy (template chosen);;
      Ret true.

Definition checkCurrentProxy : prog unit :=
  currentProxy <- getCurrentProxyFromEnv;;
  if falsy currentProxy then
    console_log NoProxyInEnv;;
    scrapeValidateAndInject;;
    Ret tt
  else
    stillGood <- validateSingleProxy (template currentProxy);;
    if negb stillGood then
      console_log NoLongerValid;;
      scrapeValidateAndInject;;
      Ret tt
    else
      console_log (StillValid (template currentProxy)).

(** [main]: the startup check, then the timer.  The timer's callback is
    [async () => { await checkCurrentProxy(); }]; the event loop below runs
    it on each tick. *)
Definition main : prog unit :=
  ensureOutputDir;;
  checkCurrentProxy;;
  setInterval CHECK_INTERVAL_MS.

(* ================================================================== *)
(** * 4. Running programs *)
(* ================================================================== *)

(** The environment: how the [n]-th consultation of the outside world is
    answered.  Requests can be answered differently each time they are made;
    whether an agent can be built depends on the proxy URL alone. *)
Record env := {
  axios : nat -> request -> axios_result;
  random : nat -> N;
  agent_error : agent_kind -> jsstr -> option js_error
}.

(** The state of the process and of its files.  [requests], [writes] and
    [console] record, in order, every request sent, every file written and
    every line printed. *)
Record world := {
  files : path -> option jsstr;
  clock : nat;
  requests : list request;
  writes : list (path * jsstr);
  console : list (level * log_msg);
  interval : option N
}.

Definition set_file (p : path) (v : jsstr) (fs : path -> option jsstr)
  : path -> option jsstr :=
  fun q => if path_eqb q p then Some v else fs q.

Definition is_some {X : Type} (o : option X) : bool :=
  match o with Some _ => true | None => false end.

Definition tick (w : world) : world :=
  {| files := files w; clock := S (clock w); requests := requests w;
     writes := writes w; console := console w; interval := interval w |}.

Definition send (r : request) (w : world) : world :=
  {| files := files w; clock := clock w; requests := requests w ++ [r];
     writes := writes w; console := console w; interval := interval w |}.

Definition mkdir (p : path) (w : world) : world :=
  {| files := (if is_some (files w p) then files w else set_file p [] (files w));
     clock := clock w; requests := requests w;
     writes := writes w; console := console w; interval := interval w |}.

Definition write (p : path) (s : jsstr) (w : world) : world :=
  {| files := set_file p s (files w); clock := clock w; requests := requests w;
     writes := writes w ++ [(p, s)]; console := console w; interval := interval w |}.

Definition print (l : level) (m : log_msg) (w : world) : world :=
  {| files := files w; clock := clock w; requests := requests w;
     writes := writes w; console := console w ++ [(l, m)]; interval := interval w |}.

Definition install_timer (ms : N) (w : world) : world :=
  {| files := files w; clock := clock w; requests := requests w;
     writes := writes w; console := console w; interval := Some ms |}.

Definition ENOENT : js_error := {| message := js "ENOENT: no such file or directory" |}.

(** One synchronous effect on a store that is available: every file
    operation succeeds and text comes back as it was written.  The store
    with its failures and its UTF-8 encoding is [handle_io] below. *)
Definition handle (e : env) {X : Type} (o : sync_op X) (w : world) : X * world :=
  match o in sync_op X return X * world with
  | ExistsSync p => (is_some (files w p), w)
  | MkdirSync p => (inr tt, mkdir p w)
  | ReadFileSync p =>
      (match files w p with Some s => inr s | None => inl ENOENT end, w)
  | WriteFileSync p s => (inr tt, write p s w)
  | NewProxyAgent k proxyUrl =>
      (match agent_error e k proxyUrl with
       | Some err => inl err
       | None => inr {| agent_class := k; agent_proxy := proxyUrl |}
       end, w)
  | MathRandom => ((random e (clock w) mod 2 ^ 53)%N, tick w)
  | Console l m => (tt, print l m w)
  | SetInterval ms => (tt, install_timer ms w)
  end.

Inductive outcome (A : Type) : Type :=
| Returned (a : A)
| Thrown (err : js_error).

Arguments Returned {A} a.
Arguments Thrown {A} err.

(** Run a program to its end, every request answered by the environment at
    once.  Total: a program is a finite tree. *)
Fixpoint run {A : Type} (e : env) (p : prog A) (w : world) : outcome A * world :=
  match p with
  | Ret a => (Returned a, w)
  | Throw err => (Thrown err, w)
  | Sync o k => let (x, w') := handle e o w in run e (k x) w'
  | Await r k => run e (k (axios e (clock w) r)) (tick (send r w))
  end.

(** ** The event loop *)

Inductive progress (A : Type) : Type :=
| Finished (o : outcome A)
| Pending (r : request) (k : axios_result -> prog A).

Arguments Finished {A} o.
Arguments Pending {A} r k.

(** Run a program up to its first pending request, which is sent. *)
Fixpoint advance {A : Type} (e : env) (p : prog A) (w : world) : progress A * world :=
  match p with
  | Ret a => (Finished (Returned a), w)
  | Throw err => (Finished (Thrown err), w)
  | Sync o k => let (x, w') := handle e o w in advance e (k x) w'
  | Await r k => (Pending r k, send r w)
  end.

(** A suspended activation of [checkCurrentProxy] (the one of [main], or one
    started by the timer): the request it waits for and what it does next. *)
Record task := { awaited : request; resume : axios_result -> prog unit }.


Inductive event :=
| Tick                                    (* the interval timer fires *)
| Settle (i : nat) (res : axios_result).  (* the request of task [i] settles *)


Fixpoint remove_nth {X : Type} (i : nat) (l : list X) : list X :=
  match l, i with
  | [], _ => []
  | _ :: l', O => l'
  | x :: l', S j => x :: remove_nth j l'
  end.





(** ** The store as Node has it

    [fs.writeFileSync] encodes a string as UTF-8 and [fs.readFileSync(path,
    'utf-8')] decodes it: a surrogate without its partner is written as
    U+FFFD, so what is read back is the string made well-formed.  Every
    call of [fs] can fail: because of what is on disk ([output] missing or
    a regular file, [.env] a directory) or because the system says so
    (permissions, a full disk).  The latter is the environment's choice. *)

Definition is_high_surrogate (c : code_unit) : bool :=
  ((55296 <=? c) && (c <=? 56319))%N.

Definition is_low_surrogate (c : code_unit) : bool :=
  ((56320 <=? c) && (c <=? 57343))%N.

Definition REPLACEMENT : code_unit := 65533%N.

(** [s.toWellFormed()]: what decoding the UTF-8 encoding of [s] gives. *)
Fixpoint toWellFormed (s : jsstr) : jsstr :=
  match s with
  | [] => []
  | c :: s' =>
      if is_high_surrogate c then
        match s' with
        | d :: s'' =>
            if is_low_surrogate d then c :: d :: toWellFormed s''
            else REPLACEMENT :: toWellFormed s'
        | [] => [REPLACEMENT]
        end
      else if is_low_surrogate c then REPLACEMENT :: toWellFormed s'
      else c :: toWellFormed s'
  end.

Definition well_formed (s : jsstr) : Prop := toWellFormed s = s.

Inductive fs_call :=
| CallExists (p : path)
| CallMkdir (p : path)
| CallRead (p : path)
| CallWrite (p : path) (content : jsstr).

(** A failure the system reports: the error thrown and, for a write, the
    text the failed write leaves in the file ([None]: the file is as
    before). *)
Record fs_failure := { failure_error : js_error; failure_residue : option jsstr }.

Record env_io := {
  net : env;
  fs_fault : nat -> fs_call -> option fs_failure   (* the n-th call of fs *)
}.

(** The process and the disk: [files (store w) p = Some c] says that [p]
    exists; it is then a directory when [is_dir w p], and otherwise a
    regular file whose bytes decode to [toWellFormed c]. *)
Record world_io := {
  store : world;
  is_dir : path -> bool;
  fs_clock : nat
}.

Definition with_store (s : world) (w : world_io) : world_io :=
  {| store := s; is_dir := is_dir w; fs_clock := fs_clock w |}.

Definition fs_tick (w : world_io) : world_io :=
  {| store := store w; is_dir := is_dir w; fs_clock := S (fs_clock w) |}.

Definition set_kind (p : path) (d : bool) (k : path -> bool) : path -> bool :=
  fun q => if path_eqb q p then d else k q.

Definition is_directory (w : world_io) (p : path) : bool :=
  is_some (files (store w) p) && is_dir w p.

Definition is_regular (w : world_io) (p : path) : bool :=
  is_some (files (store w) p) && negb (is_dir w p).

(** The directory a path lies in, when it is not the working directory. *)
Definition parent (p : path) : option path :=
  match p with
  | OUTPUT_FILE => Some OUTPUT_DIR
  | ENV_PATH | OUTPUT_DIR => None
  end.

Definition EEXIST : js_error := {| message := js "EEXIST: file already exists" |}.
Definition EISDIR : js_error := {| message := js "EISDIR: illegal operation on a directory" |}.
Definition ENOTDIR : js_error := {| message := js "ENOTDIR: not a directory" |}.

(** Put a regular file holding [c] at [p], without recording a write. *)
Definition put_file (p : path) (c : jsstr) (w : world_io) : world_io :=
  {| store := {| files := set_file p c (files (store w)); clock := clock (store w);
                 requests := requests (store w); writes := writes (store w);
                 console := console (store w); interval := interval (store w) |};
     is_dir := set_kind p false (is_dir w);
     fs_clock := fs_clock w |}.

Definition put_dir (p : path) (w : world_io) : world_io :=
  {| store := {| files := set_file p [] (files (store w)); clock := clock (store w);
                 requests := requests (store w); writes := writes (store w);
                 console := console (store w); interval := interval (store w) |};
     is_dir := set_kind p true (is_dir w);
     fs_clock := fs_clock w |}.

Definition log_write (p : path) (s : jsstr) (w : world_io) : world_io :=
  {| store := {| files := files (store w); clock := clock (store w);
                 requests := requests (store w);
                 writes := writes (store w) ++ [(p, s)];
                 console := console (store w); interval := interval (store w) |};
     is_dir := is_dir w;
     fs_clock := fs_clock w |}.

(** [fs.existsSync(p)]: never throws; any failure reads as "not there". *)
Definition exists_io (e : env_io) (p : path) (w : world_io) : bool * world_io :=
  match fs_fault e (fs_clock w) (CallExists p) with
  | Some _ => (false, fs_tick w)
  | None => (is_some (files (store w) p), fs_tick w)
  end.

(** [fs.mkdirSync(p, { recursive: true })]: a directory that is there
    already is fine, a regular file in its place is not. *)
Definition mkdir_io (e : env_io) (p : path) (w : world_io) : (js_error + unit) * world_io :=
  match fs_fault e (fs_clock w) (CallMkdir p) with
  | Some f => (inl (failure_error f), fs_tick w)
  | None =>
      match parent p with
      | Some d =>
          if is_regular w d then (inl ENOTDIR, fs_tick w)
          else if is_regular w p then (inl EEXIST, fs_tick w)
          else if is_directory w p then (inr tt, fs_tick w)
          else (inr tt, fs_tick (put_dir p (if is_directory w d then w else put_dir d w)))
      | None =>
          if is_regular w p then (inl EEXIST, fs_tick w)
          else if is_directory w p then (inr tt, fs_tick w)
          else (inr tt, fs_tick (put_dir p w))
      end
  end.

(** [fs.readFileSync(p, 'utf-8')] *)
Definition read_io (e : env_io) (p : path) (w : world_io) : (js_error + jsstr) * world_io :=
  match fs_fault e (fs_clock w) (CallRead p) with
  | Some f => (inl (failure_error f), fs_tick w)
  | None =>
      match files (store w) p with
      | None => (inl ENOENT, fs_tick w)
      | Some c =>
          if is_dir w p then (inl EISDIR, fs_tick w)
          else (inr (toWellFormed c), fs_tick w)
      end
  end.

(** [fs.writeFileSync(p, s)]: the file is created or replaced; a write
    that fails is not recorded in [writes]. *)
Definition write_io (e : env_io) (p : path) (s : jsstr) (w : world_io)
  : (js_error + unit) * world_io :=
  let blocked :=
    match parent p with
    | Some d =>
        if is_regular w d then Some ENOTDIR
        else if is_directory w d then None
        else Some ENOENT
    | None => None
    end in
  match blocked with
  | Some err => (inl err, fs_tick w)
  | None =>
      if is_directory w p then (inl EISDIR, fs_tick w)
      else
        match fs_fault e (fs_clock w) (CallWrite p s) with
        | Some f =>
            (inl (failure_error f),
             fs_tick (match failure_residue f with
                      | Some c => put_file p c w
                      | None => w
                      end))
        | None => (inr tt, fs_tick (log_write p s (put_file p (toWellFormed s) w)))
        end
  end.

(** One synchronous effect.  What does not touch the disk is as in
    [handle]. *)
Definition handle_io (e : env_io) {X : Type} (o : sync_op X) (w : world_io) : X * world_io :=
  match o in sync_op X return X * world_io with
  | ExistsSync p => exists_io e p w
  | MkdirSync p => mkdir_io e p w
  | ReadFileSync p => read_io e p w
  | WriteFileSync p s => write_io e p s w
  | NewProxyAgent k proxyUrl =>
      let (x, s') := handle (net e) (NewProxyAgent k proxyUrl) (store w) in (x, with_store s' w)
  | MathRandom =>
      let (x, s') := handle (net e) MathRandom (store w) in (x, with_store s' w)
  | Console l m =>
      let (x, s') := handle (net e) (Console l m) (store w) in (x, with_store s' w)
  | SetInterval ms =>
      let (x, s') := handle (net e) (SetInterval ms) (store w) in (x, with_store s' w)
  end.

(** Run a program to its end on the real store. *)
Fixpoint run_io {A : Type} (e : env_io) (p : prog A) (w : world_io)
  : outcome A * world_io :=
  match p with
  | Ret a => (Returned a, w)
  | Throw err => (Thrown err, w)
  | Sync o k => let (x, w') := handle_io e o w in run_io e (k x) w'
  | Await r k =>
      run_io e (k (axios (net e) (clock (store w)) r))
             (with_store (tick (send r (store w))) w)
  end.

(** Sequencing two results, as [run_io] does for [bind]. *)
Definition then_run_io {A B : Type} (r : outcome A * world_io)
    (f : A -> world_io -> outcome B * world_io) : outcome B * world_io :=
  match r with
  | (Returned a, w') => f a w'
  | (Thrown err, w') => (Thrown err, w')
  end.

(** A result of [run] on the store of [w], seen as a result on [w]. *)
Definition on_disk {A : Type} (r : outcome A * world) (w : world_io)
  : outcome A * world_io :=
  (fst r, with_store (snd r) w).

Definition is_surrogate (c : code_unit) : bool :=
  is_high_surrogate c || is_low_surrogate c.

(** The system reports no failure. *)
Definition calm (e : env_io) : Prop := forall n c, fs_fault e n c = None.

(** Nothing on disk is of the wrong kind: [output] is not a regular file,
    [.env] and the pool listing are not directories. *)
Definition shape_ok (w : world_io) : Prop :=
  is_regular w OUTPUT_DIR = false /\
  is_directory w ENV_PATH = false /\
  is_directory w OUTPUT_FILE = false.

(** The lines the script reads from [.env]: none when the file is absent. *)
Definition lines_read (w : world_io) : list jsstr :=
  match files (store w) ENV_PATH with
  | Some content => split (toWellFormed content) NL
  | None => []
  end.

(** A program that makes no call of [fs]. *)
Definition touches_disk {X : Type} (o : sync_op X) : bool :=
  match o with
  | ExistsSync _ | MkdirSync _ | ReadFileSync _ | WriteFileSync _ _ => true
  | _ => false
  end.

Fixpoint fs_free {A : Type} (p : prog A) : Prop :=
  match p with
  | Ret _ | Throw _ => True
  | Sync o k => touches_disk o = false /\ forall x, fs_free (k x)
  | Await _ k => forall x, fs_free (k x)
  end.

(** Programs and the timer: [no_timer p] never calls [setInterval];
    [awaits_nothing p] never awaits; in [timer_last p] nothing is awaited
    once [setInterval] has been called. *)
Definition sets_timer {X : Type} (o : sync_op X) : bool :=
  match o with
  | SetInterval _ => true
  | _ => false
  end.

Fixpoint no_timer {A : Type} (p : prog A) : Prop :=
  match p with
  | Ret _ | Throw _ => True
  | Sync o k => sets_timer o = false /\ forall x, no_timer (k x)
  | Await _ k => forall x, no_timer (k x)
  end.

Fixpoint awaits_nothing {A : Type} (p : prog A) : Prop :=
  match p with
  | Ret _ | Throw _ => True
  | Sync _ k => forall x, awaits_nothing (k x)
  | Await _ _ => False
  end.

Fixpoint timer_last {A : Type} (p : prog A) : Prop :=
  match p with
  | Ret _ | Throw _ => True
  | Sync o k =>
      if sets_timer o then forall x, awaits_nothing (k x)
      else forall x, timer_last (k x)
  | Await _ k => forall x, timer_last (k x)
  end.

(** Nothing on disk, no record of a write and no timer differs between [w]
    and [w']: only the clocks, the requests and the console may. *)
Definition undisturbed (w w' : world_io) : Prop :=
  files (store w') = files (store w) /\
  is_dir w' = is_dir w /\
  writes (store w') = writes (store w) /\
  interval (store w') = interval (store w).

(** ** The event loop on the real store *)

Fixpoint advance_io {A : Type} (e : env_io) (p : prog A) (w : world_io)
  : progress A * world_io :=
  match p with
  | Ret a => (Finished (Returned a), w)
  | Throw err => (Finished (Thrown err), w)
  | Sync o k => let (x, w') := handle_io e o w in advance_io e (k x) w'
  | Await r k => (Pending r k, with_store (send r (store w)) w)
  end.

Record loop_io := { disk : world_io; waiting : list task }.

Definition spawn_io (e : env_io) (p : prog unit) (w : world_io) (others : list task)
  : loop_io :=
  match advance_io e p w with
  | (Finished _, w') => {| disk := w'; waiting := others |}
  | (Pending r k, w') =>
      {| disk := w'; waiting := others ++ [{| awaited := r; resume := k |}] |}
  end.

Definition step_io (e : env_io) (st : loop_io) (ev : event) : option loop_io :=
  match ev with
  | Tick =>
      match interval (store (disk st)) with
      | Some _ => Some (spawn_io e checkCurrentProxy (disk st) (waiting st))
      | None => None
      end
  | Settle i res =>
      match nth_error (waiting st) i with
      | Some t => Some (spawn_io e (resume t res) (disk st) (remove_nth i (waiting st)))
      | None => None
      end
  end.

Fixpoint steps_io (e : env_io) (st : loop_io) (evs : list event) : option loop_io :=
  match evs with
  | [] => Some st
  | ev :: evs' =>
      match step_io e st ev with
      | Some st' => steps_io e st' evs'
      | None => None
      end
  end.

Definition boot_io (e : env_io) (w : world_io) : loop_io := spawn_io e main w [].

(** ** Observations used in the statements *)

(** The lines [setEnvProxy] and [getCurrentProxyFromEnv] read from [.env]:
    none when the file is absent. *)
Definition env_lines (w : world) : list jsstr :=
  match files w ENV_PATH with
  | Some content => split content NL
  | None => []
  end.

Definition ends_with_whitespace (s : jsstr) : bool :=
  match rev s with
  | [] => false
  | z :: _ => isWhiteSpace z
  end.

(** A line that is indented and then reads [PROXY_SERVER=...]: the reader,
    which trims, takes it for the entry; the writer, which does not, leaves
    it in place. *)
Definition indented_entry (line : jsstr) : bool :=
  startsWith (trim line) ENV_PREFIX && negb (startsWith line ENV_PREFIX).


(** Sequencing two results, as [run] does for [bind]. *)
Definition then_run {A B : Type} (r : outcome A * world)
    (f : A -> world -> outcome B * world) : outcome B * world :=
  match r with
  | (Returned a, w') => f a w'
  | (Thrown err, w') => (Thrown err, w')
  end.

Definition catch_run {A : Type} (r : outcome A * world)
    (h : js_error -> world -> outcome A * world) : outcome A * world :=
  match r with
  | (Returned a, w') => (Returned a, w')
  | (Thrown err, w') => h err w'
  end.

(** The agent [validateSingleProxy] builds for a proxy URL. *)
Definition agent_class_of (proxyUrl : jsstr) : agent_kind :=
  if jsstr_eqb (hd [] (split proxyUrl (js "://"))) (js "https")
  then HttpsProxyAgent else HttpProxyAgent.

Definition agent_of (proxyUrl : jsstr) : agent :=
  {| agent_class := agent_class_of proxyUrl; agent_proxy := proxyUrl |}.

Definition is_200 (res : axios_result) : bool :=
  match res with
  | Resolved resp => (status resp =? 200)%Z
  | Rejected _ => false
  end.

(** What the environment makes of a check of [proxyUrl] begun at time [t]:
    the agent can be built and the probe is answered with status 200. *)
Definition valid_at (e : env) (t : nat) (proxyUrl : jsstr) : bool :=
  match agent_error e (agent_class_of proxyUrl) proxyUrl with
  | Some _ => false
  | None => is_200 (axios e t (probe_request (agent_of proxyUrl)))
  end.

(** The world after such a check: one probe sent, if the agent was built. *)
Definition probed (e : env) (proxyUrl : jsstr) (w : world) : world :=
  match agent_error e (agent_class_of proxyUrl) proxyUrl with
  | Some _ => w
  | None => tick (send (probe_request (agent_of proxyUrl)) w)
  end.

(** The store: the files, the record of writes, and the timer. *)
Definition same_store (w w' : world) : Prop :=
  files w' = files w /\ writes w' = writes w /\ interval w' = interval w.

(** The candidates a quota of 100 lets through to a check, when [found]
    successes are already in hand and [ok] tells which checks succeed. *)
Fixpoint tested (ok : jsstr -> bool) (l : list jsstr) (found : nat) : list jsstr :=
  match l with
  | [] => []
  | p :: rest =>
      if 100 <=? found then []
      else p :: tested ok rest (if ok p then S found else found)
  end.

(** The console line of one checked candidate. *)
Definition verdict (ok : jsstr -> bool) (p : jsstr) : level * log_msg :=
  (INFO, if ok p then ProxyOk p else ProxyFail p).

(** The candidate lines one source contributes, from how its request
    settled: those of a response with status 200 and a non-empty string
    body, none otherwise. *)
Definition source_yield (res : axios_result) : list jsstr :=
  match res with
  | Resolved resp =>
      if (status resp =? 200)%Z && is_truthy (data resp) then
        match data resp with
        | VString s => candidate_lines (split s NL)
        | VOther _ => []
        end
      else []
  | Rejected _ => []
  end.

(** A source fails entirely: network error or timeout (the request is
    rejected), or a status other than 200. *)
Definition source_fails (res : axios_result) : Prop :=
  match res with
  | Resolved resp => status resp <> 200%Z
  | Rejected _ => True
  end.

(** The lines of all sources, the first asked at time [t]. *)
Fixpoint yields (e : env) (t : nat) (srcs : list jsstr) : list jsstr :=
  match srcs with
  | [] => []
  | src :: rest => source_yield (axios e t (source_request src)) ++ yields e (S t) rest
  end.

(** The endpoint a candidate line stands for. *)
Definition normalize (line : jsstr) : jsstr :=
  if includes line (js "://") then line else js "http://" ++ line.

(** The endpoint [scrapeValidateAndInject] picks from [valid] when
    [Math.random()] is consulted in world [w]. *)
Definition chosen_from (e : env) (valid : list jsstr) (w : world) : jsstr :=
  template (nth_error valid
              (floor_mul (random e (clock w) mod 2 ^ 53)%N (List.length valid))).

(** The world a successful refresh leaves, from the world [w] in which
    validation ended: the pool listing is written, then the entry. *)
Definition installed (e : env) (valid : list jsstr) (w : world) : world :=
  let w1 := print INFO WroteValidProxies (write OUTPUT_FILE (join valid NL) w) in
  let chosen := chosen_from e valid w1 in
  print INFO (UpdatedEnv chosen)
    (write ENV_PATH (join (updated_env_lines (env_lines (tick w1)) chosen) NL) (tick w1)).

(** The part of [s] before the first occurrence of [sep]: the first piece
    of [s.split(sep)]. *)
Fixpoint before (sep s : jsstr) : jsstr :=
  match s with
  | [] => []
  | c :: s' => if startsWith s sep then [] else c :: before sep s'
  end.

Definition is_tick (ev : event) : bool :=
  match ev with
  | Tick => true
  | Settle _ _ => false
  end.

(** The probes a run of checks over [l] sends: one per candidate whose
    agent can be built, in order. *)
Definition probes_of (e : env) (l : list jsstr) : list request :=
  flat_map (fun p => match agent_error e (agent_class_of p) p with
                     | Some _ => []
                     | None => [probe_request (agent_of p)]
                     end) l.

(** A source offers a line: its request is answered with status 200 and a
    string body one of whose lines is not empty once trimmed. *)
Definition offers_line (res : axios_result) : Prop :=
  exists resp body raw,
    res = Resolved resp /\ status resp = 200%Z /\ data resp = VString body /\
    In raw (split body NL) /\ trim raw <> [].

(** ** Sample environments and worlds *)

Definition offline : env :=
  {| axios := fun _ _ => Rejected {| message := js "ECONNREFUSED" |};
     random := fun _ => 0%N;
     agent_error := fun _ _ => None |}.

Definition world_with (env_file : option jsstr) : world :=
  {| files := fun p => match p with
                       | ENV_PATH => env_file
                       | OUTPUT_DIR => Some []
                       | OUTPUT_FILE => None
                       end;
     clock := 0; requests := []; writes := []; console := []; interval := None |}.

Definition fresh : world := world_with None.

(** A disk that never fails, and a disk with [output] in place. *)
Definition quiet_disk : env -> env_io :=
  fun e => {| net := e; fs_fault := fun _ _ => None |}.

Definition EACCES : js_error := {| message := js "EACCES: permission denied" |}.

(** A disk on which nothing can be written. *)
Definition read_only_disk : env_io :=
  {| net := offline;
     fs_fault := fun _ c =>
       match c with
       | CallWrite _ _ => Some {| failure_error := EACCES; failure_residue := None |}
       | _ => None
       end |}.

Definition disk_with (env_file : option jsstr) : world_io :=
  {| store := world_with env_file;
     is_dir := fun p => match p with OUTPUT_DIR => true | _ => false end;
     fs_clock := 0 |}.

(** The [i]-th of the two sources. *)
Definition source (i : nat) : jsstr := nth i GITHUB_SOURCES [].

Definition ok_response (body : js_value) : axios_result :=
  Resolved {| status := 200; data := body |}.

Definition timed_out : axios_result :=
  Rejected {| message := js "timeout of 5000ms exceeded" |}.

(** An environment that does not change with time: a probe through proxy
    [p] is answered with status 200 when [ok p] and times out otherwise, a
    source [src] settles as [serve src], every agent can be built, and
    [Math.random()] is [k / 2^53]. *)
Definition steady (ok : jsstr -> bool) (serve : jsstr -> axios_result) (k : N) : env :=
  {| axios := fun _ r =>
       match req_agent r with
       | Some a => if ok (agent_proxy a) then ok_response (VOther true) else timed_out
       | None => serve (req_url r)
       end;
     random := fun _ => k;
     agent_error := fun _ _ => None |}.

(** The scenario of the specification: the first list holds [1.2.3.4:8080]
    and [5.6.7.8:3128], the second [https://9.9.9.9:443]; the first and the
    last proxy answer. *)
Definition scenario_serve (src : jsstr) : axios_result :=
  if jsstr_eqb src (source 0)
  then ok_response (VString (js "1.2.3.4:8080" ++ NL ++ js "5.6.7.8:3128"))
  else ok_response (VString (js "https://9.9.9.9:443")).

Definition scenario_ok (p : jsstr) : bool :=
  jsstr_eqb p (js "http://1.2.3.4:8080") || jsstr_eqb p (js "https://9.9.9.9:443").

Definition scenario : env := steady scenario_ok scenario_serve (2 ^ 52).

(** The first list cannot be fetched, the second holds one proxy; no proxy
    answers. *)
Definition first_source_down : env :=
  steady (fun _ => false)
         (fun src => if jsstr_eqb src (source 0)
                     then Rejected {| message := js "getaddrinfo ENOTFOUND" |}
                     else ok_response (VString (js "1.2.3.4:8080")))
         0.

(* ================================================================== *)
(** * 5. Facts about the string functions *)
(* ================================================================== *)

Section StringFacts.

Lemma jsstr_eqb_eq (a b : jsstr) : jsstr_eqb a b = true <-> a = b.
Proof.
  revert b; induction a as [|x a IH]; intros [|y b]; simpl;
    try (split; [discriminate | discriminate]); try tauto.
  rewrite andb_true_iff, N.eqb_eq, IH.
  split; [intros [-> ->]; reflexivity | intros [= -> ->]; auto].
Qed.

Lemma jsstr_eqb_nil (a : jsstr) : jsstr_eqb a [] = false <-> a <> [].
Proof. destruct a; simpl; split; congruence. Qed.

Lemma startsWith_nil (s : jsstr) : startsWith s [] = true.
Proof. now destruct s. Qed.

Lemma startsWith_app (p s : jsstr) : startsWith (p ++ s) p = true.
Proof.
  induction p as [|c p IH]; simpl; [now destruct s|]. now rewrite N.eqb_refl.
Qed.

Lemma startsWith_iff (s p : jsstr) :
  startsWith s p = true <-> exists t, s = p ++ t.
Proof.
  revert s; induction p as [|c p IH]; intros s; simpl.
  - split; [exists s; reflexivity | now destruct s].
  - destruct s as [|d s]; simpl.
    + split; [discriminate | intros [t [=]]].
    + rewrite andb_true_iff, N.eqb_eq, IH. split.
      * intros [-> [t ->]]. now exists t.
      * intros [t [= -> ->]]. split; [reflexivity | now exists t].
Qed.

(** ** [split] on a one-unit separator *)

Variable c : code_unit.

Lemma split_go_unit_cons (x : code_unit) (s cur : jsstr) :
  split_go [c] (x :: s) 0 cur =
  if N.eqb c x then rev cur :: split_go [c] s 0 [] else split_go [c] s 0 (x :: cur).
Proof. simpl. rewrite startsWith_nil, andb_true_r. reflexivity. Qed.

Lemma split_go_unit_skip (a s cur : jsstr) :
  ~ In c a ->
  split_go [c] (a ++ s) 0 cur = split_go [c] s 0 (rev a ++ cur).
Proof.
  revert cur; induction a as [|x a IH]; intros cur Ha; [reflexivity|].
  rewrite <- app_comm_cons, split_go_unit_cons.
  destruct (N.eqb_spec c x) as [->|Hx]; [exfalso; apply Ha; now left|].
  rewrite IH by (intros H; apply Ha; now right).
  simpl. now rewrite <- app_assoc.
Qed.

Lemma split_go_unit_whole (a cur : jsstr) :
  ~ In c a -> split_go [c] a 0 cur = [rev cur ++ a].
Proof.
  intros Ha. rewrite <- (app_nil_r a) at 1.
  rewrite split_go_unit_skip by assumption. simpl.
  now rewrite rev_app_distr, rev_involutive.
Qed.

(** A string without the separator is its own single piece. *)
Lemma split_unit_whole (a : jsstr) : ~ In c a -> split a [c] = [a].
Proof. intros Ha. unfold split. now rewrite split_go_unit_whole. Qed.

Lemma split_go_unit_join (p : jsstr) (rest : list jsstr) (cur : jsstr) :
  Forall (fun q => ~ In c q) (p :: rest) ->
  split_go [c] (join (p :: rest) [c]) 0 cur = (rev cur ++ p) :: rest.
Proof.
  revert p cur; induction rest as [|q rest IH]; intros p cur H.
  - simpl join. apply split_go_unit_whole. now inversion H.
  - inversion H as [|? ? Hp Hrest]; subst.
    change (join (p :: q :: rest) [c]) with (p ++ c :: join (q :: rest) [c]).
    rewrite split_go_unit_skip by assumption.
    rewrite split_go_unit_cons, N.eqb_refl, IH by assumption.
    now rewrite rev_app_distr, rev_involutive.
Qed.

(** Splitting what [join] glued gives the pieces back, when there is at
    least one piece and no piece holds the separator. *)
Lemma split_join (pieces : list jsstr) :
  pieces <> [] ->
  Forall (fun q => ~ In c q) pieces ->
  split (join pieces [c]) [c] = pieces.
Proof.
  destruct pieces as [|p rest]; [congruence|]. intros _ H.
  unfold split. now rewrite split_go_unit_join.
Qed.

Lemma split_go_unit_pieces (s cur : jsstr) :
  ~ In c cur -> Forall (fun q => ~ In c q) (split_go [c] s 0 cur).
Proof.
  revert cur; induction s as [|x s IH]; intros cur Hcur.
  - simpl. constructor; [|constructor]. now rewrite <- in_rev.
  - rewrite split_go_unit_cons. destruct (N.eqb_spec c x) as [->|Hx].
    + constructor; [now rewrite <- in_rev | apply IH; intros []].
    + apply IH. intros [E|H]; [now apply Hx | now apply Hcur].
Qed.

(** No piece of a split holds the separator. *)
Lemma split_unit_pieces (s : jsstr) : Forall (fun q => ~ In c q) (split s [c]).
Proof. apply split_go_unit_pieces. intros []. Qed.

Lemma split_go_nonempty (sep s : jsstr) (skip : nat) (cur : jsstr) :
  split_go sep s skip cur <> [].
Proof.
  revert skip cur; induction s as [|x s IH]; intros skip cur; [discriminate|].
  cbn [split_go]. destruct skip; [|apply IH].
  destruct (startsWith (x :: s) sep); [discriminate | apply IH].
Qed.

End StringFacts.

(** ** [trim] *)

Lemma trimEnd_id (s : jsstr) : ends_with_whitespace s = false -> trimEnd s = s.
Proof.
  unfold ends_with_whitespace, trimEnd. intros H.
  rewrite <- (rev_involutive s) at 2.
  destruct (rev s) as [|z r]; [reflexivity|]. simpl trimStart. now rewrite H.
Qed.

Lemma ends_with_whitespace_app (a p : jsstr) :
  p <> [] -> ends_with_whitespace (a ++ p) = ends_with_whitespace p.
Proof.
  unfold ends_with_whitespace. intros Hp. rewrite rev_app_distr.
  destruct (rev p) as [|z r] eqn:E; [|reflexivity].
  apply (f_equal (@rev _)) in E. rewrite rev_involutive in E. now subst.
Qed.

(** Trimming can only turn a line into one that starts with the key when
    the line began with white space. *)
Lemma trim_env_line (p : jsstr) :
  ends_with_whitespace p = false -> trim (ENV_PREFIX ++ p) = ENV_PREFIX ++ p.
Proof.
  intros H. unfold trim.
  change (trimStart (ENV_PREFIX ++ p)) with (ENV_PREFIX ++ p).
  apply trimEnd_id. destruct p as [|x p].
  - reflexivity.
  - now rewrite ends_with_whitespace_app.
Qed.

Lemma env_prefix_split (p : jsstr) :
  ~ In 61%N p -> nth_error (split (ENV_PREFIX ++ p) (js "=")) 1 = Some p.
Proof.
  intros H. unfold split.
  change (ENV_PREFIX ++ p) with (ENV_KEY ++ 61%N :: p).
  change (js "=") with [61%N].
  rewrite split_go_unit_skip
    by (vm_compute; intuition discriminate).
  rewrite split_go_unit_cons, N.eqb_refl.
  now rewrite split_go_unit_whole.
Qed.

(* ================================================================== *)
(** * 6. Facts about running programs *)
(* ================================================================== *)

Section RunFacts.

Variable e : env.

Lemma run_bind {A B : Type} (p : prog A) (f : A -> prog B) (w : world) :
  run e (bind p f) w = then_run (run e p w) (fun a w' => run e (f a) w').
Proof.
  revert w; induction p as [a|err|X o k IH|r k IH]; intros w; simpl; auto.
  destruct (handle e o w) as [x w']. apply IH.
Qed.

Lemma run_try_catch {A : Type} (p : prog A) (h : js_error -> prog A) (w : world) :
  run e (try_catch p h) w = catch_run (run e p w) (fun err w' => run e (h err) w').
Proof.
  revert w; induction p as [a|err|X o k IH|r k IH]; intros w; simpl; auto.
  destruct (handle e o w) as [x w']. apply IH.
Qed.

(** The two ways of running agree: [run] is [advance] with the pending
    request answered by the environment at once. *)
Lemma run_advance {A : Type} (p : prog A) (w : world) :
  match advance e p w with
  | (Finished o, w') => run e p w = (o, w')
  | (Pending r k, w') => run e p w = run e (k (axios e (clock w') r)) (tick w')
  end.
Proof.
  revert w; induction p as [a|err|X o k IH|r k IH]; intros w; simpl; auto.
  destruct (handle e o w) as [x w']. apply IH.
Qed.

Lemma run_setEnvProxy (proxyUrl : jsstr) (w : world) :
  run e (setEnvProxy proxyUrl) w =
  (Returned tt,
   print INFO (UpdatedEnv proxyUrl)
     (write ENV_PATH (join (updated_env_lines (env_lines w) proxyUrl) NL) w)).
Proof.
  unfold setEnvProxy, env_lines.
  destruct (files w ENV_PATH) as [content|] eqn:E; simpl; rewrite E; simpl;
    rewrite ?E; reflexivity.
Qed.

Lemma run_getCurrentProxyFromEnv (w : world) :
  run e getCurrentProxyFromEnv w = (Returned (find_env_line (env_lines w)), w).
Proof.
  unfold getCurrentProxyFromEnv, env_lines.
  destruct (files w ENV_PATH) as [content|] eqn:E; simpl; rewrite E; simpl;
    rewrite ?E; reflexivity.
Qed.

End RunFacts.

(* ================================================================== *)
(** * 7. The active proxy entry of [.env] *)
(* ================================================================== *)

Section EnvFile.

Variable e : env.

Lemma env_prefix_no_newline (p : jsstr) : ~ In 10%N p -> ~ In 10%N (ENV_PREFIX ++ p).
Proof.
  intros Hp H. apply in_app_or in H as [H|H]; [|now apply Hp].
  vm_compute in H. intuition discriminate.
Qed.

Lemma env_lines_no_newline (w : world) :
  Forall (fun q => ~ In 10%N q) (env_lines w).
Proof.
  unfold env_lines. destruct (files w ENV_PATH); [|constructor].
  apply split_unit_pieces.
Qed.

Lemma updated_env_lines_no_newline (ls : list jsstr) (p : jsstr) :
  Forall (fun q => ~ In 10%N q) ls -> ~ In 10%N p ->
  Forall (fun q => ~ In 10%N q) (updated_env_lines ls p).
Proof.
  intros Hls Hp. unfold updated_env_lines. apply Forall_app. split.
  - rewrite Forall_forall in *. intros q Hq. apply filter_In in Hq. now apply Hls.
  - constructor; [now apply env_prefix_no_newline | constructor].
Qed.

(** What [.env] holds, line by line, after [setEnvProxy]. *)
Lemma env_lines_after_set (p : jsstr) (w : world) :
  ~ In 10%N p ->
  env_lines (snd (run e (setEnvProxy p) w)) = updated_env_lines (env_lines w) p.
Proof.
  intros Hp. rewrite run_setEnvProxy. unfold env_lines at 1. simpl.
  apply split_join.
  - unfold updated_env_lines. intros H. now apply app_eq_nil in H as [_ H].
  - apply updated_env_lines_no_newline; [apply env_lines_no_newline | assumption].
Qed.



Lemma find_env_line_skip (kept rest : list jsstr) :
  Forall (fun l => startsWith (trim l) ENV_PREFIX = false) kept ->
  find_env_line (kept ++ rest) = find_env_line rest.
Proof.
  induction 1 as [|l kept Hl _ IH]; [reflexivity|].
  simpl. now rewrite Hl.
Qed.



End EnvFile.


(* ================================================================== *)
(** * 8. The random index *)
(* ================================================================== *)

Section Doubles.

Local Open Scope N_scope.

(** The arithmetic behind rounding up: with [P = 2^s], [H = 2^(s-1)] and
    [B = 2^53], a numerator at least [H * B] and at most [B * n - n] cannot
    round up to [n * B]. *)
Lemma round_up_bound (B P T H n m q r : N) :
  P = 2 * H -> P * T = B -> H * B <= m -> m = P * q + r -> H <= r ->
  0 < n -> m + n <= B * n -> (q + 1) * P < n * B.
Proof.
  intros HP HB HL Hm Hr Hn Hmn.
  assert (HP0 : 0 < P) by (destruct P; [subst B; nia | lia]).
  assert (Hq : q < n * T).
  { apply (N.mul_lt_mono_pos_l P); [assumption|]. nia. }
  destruct (N.lt_ge_cases (q + 1) (n * T)) as [Hlt|Hge].
  - subst B. apply (N.mul_lt_mono_pos_r P) in Hlt; [|assumption]. lia.
  - exfalso. assert (Hq1 : q + 1 = n * T) by lia.
    assert (HnB : n * B = P * q + P) by (subst B; nia).
    assert (n <= H) by lia.
    assert (B * n <= H * B) by nia. lia.
Qed.

(** Rounding the exact product never reaches the length itself. *)
Lemma round53_below (m n : N) :
  0 < n -> n < 2 ^ 53 -> m + n <= 2 ^ 53 * n -> round53 m < n * 2 ^ 53.
Proof.
  intros Hn0 Hn Hm. unfold round53.
  destruct (N.ltb_spec m (2 ^ 53)) as [Hsmall|Hbig]; [lia|].
  set (L := N.log2 m). set (s := L - 52).
  assert (Hm0 : 0 < m) by lia.
  destruct (N.log2_spec m Hm0) as [HL1 HL2]. fold L in HL1, HL2.
  assert (HL53 : 53 <= L).
  { apply N.log2_le_mono in Hbig. rewrite N.log2_pow2 in Hbig by lia. exact Hbig. }
  assert (HL106 : L < 106).
  { apply N.log2_lt_pow2; [lia|].
    change (2 ^ 106) with (2 ^ 53 * 2 ^ 53).
    apply N.lt_le_trans with (2 ^ 53 * n); [lia|].
    apply N.mul_le_mono_l. lia. }
  assert (HP : 2 ^ s = 2 * 2 ^ (s - 1)).
  { replace s with (N.succ (s - 1)) at 1 by lia. apply N.pow_succ_r'. }
  assert (HB : 2 ^ s * 2 ^ (53 - s) = 2 ^ 53).
  { rewrite <- N.pow_add_r. f_equal. lia. }
  assert (HLB : 2 ^ (s - 1) * 2 ^ 53 <= m).
  { rewrite <- N.pow_add_r. replace (s - 1 + 53) with L by lia. exact HL1. }
  assert (HP0 : 2 ^ s <> 0) by (apply N.pow_nonzero; lia).
  pose proof (N.div_mod m (2 ^ s) HP0) as Hdiv.
  pose proof (N.mod_lt m (2 ^ s) HP0) as Hr.
  destruct ((2 ^ (s - 1) <? m mod 2 ^ s)
            || (m mod 2 ^ s =? 2 ^ (s - 1)) && N.odd (m / 2 ^ s)) eqn:Hup.
  - apply (round_up_bound (2 ^ 53) (2 ^ s) (2 ^ (53 - s)) (2 ^ (s - 1)) n m
             (m / 2 ^ s) (m mod 2 ^ s)); try assumption.
    apply orb_true_iff in Hup as [Hup|Hup].
    + apply N.ltb_lt in Hup. now apply N.lt_le_incl.
    + apply andb_true_iff in Hup as [Hup _]. apply N.eqb_eq in Hup.
      rewrite Hup. apply N.le_refl.
  - apply N.le_lt_trans with m.
    + rewrite N.mul_comm. apply N.Div0.mul_div_le.
    + lia.
Qed.

(** [Math.floor(Math.random() * n)] is an index below [n]. *)
Lemma floor_mul_lt (k : N) (n : nat) :
  k < 2 ^ 53 -> (0 < n)%nat -> N.of_nat n < 2 ^ 53 -> (floor_mul k n < n)%nat.
Proof.
  intros Hk Hn0 Hn. unfold floor_mul.
  assert (H : round53 (k * N.of_nat n) < N.of_nat n * 2 ^ 53).
  { apply round53_below; [lia | assumption |].
    replace (k * N.of_nat n + N.of_nat n) with ((k + 1) * N.of_nat n) by lia.
    apply N.mul_le_mono_r. lia. }
  rewrite (N.mul_comm (N.of_nat n) (2 ^ 53)) in H.
  apply N.Div0.div_lt_upper_bound in H.
  revert H. generalize (round53 (k * N.of_nat n) / 2 ^ 53). intros x Hx. lia.
Qed.

End Doubles.

(* ================================================================== *)
(** * 9. Checking proxies *)
(* ================================================================== *)

Lemma same_store_refl (w : world) : same_store w w.
Proof. repeat split. Qed.

Lemma same_store_trans (w1 w2 w3 : world) :
  same_store w1 w2 -> same_store w2 w3 -> same_store w1 w3.
Proof. unfold same_store. intros (-> & -> & ->) (-> & -> & ->). repeat split. Qed.

Lemma same_store_print (l : level) (m : log_msg) (w : world) :
  same_store w (print l m w).
Proof. repeat split. Qed.

Section Validation.

Variable e : env.

(* The quota is the literal 100: keep comparisons with it folded. *)
#[local] Arguments Nat.leb : simpl never.
#[local] Arguments Nat.sub : simpl never.
#[local] Arguments Nat.max : simpl never.

Lemma same_store_probed (p : jsstr) (w : world) : same_store w (probed e p w).
Proof. unfold probed. destruct (agent_error _ _ _); repeat split. Qed.

Lemma console_probed (p : jsstr) (w : world) : console (probed e p w) = console w.
Proof. unfold probed. now destruct (agent_error _ _ _). Qed.

(** [validateSingleProxy] in one step: its verdict and the world it leaves. *)
Lemma run_validateSingleProxy (p : jsstr) (w : world) :
  run e (validateSingleProxy p) w = (Returned (valid_at e (clock w) p), probed e p w).
Proof.
  unfold validateSingleProxy, valid_at, probed, agent_of, agent_class_of.
  destruct (jsstr_eqb _ _); simpl;
    (destruct (agent_error e _ p); simpl; [reflexivity|]);
    (destruct (axios e (clock w) _) as [resp|err]; simpl; [|reflexivity]);
    destruct (status resp =? 200)%Z; reflexivity.
Qed.

(** C5: [validateSingleProxy] never throws: it returns a boolean whatever
    the environment does.  The boolean is [true] exactly when the agent for
    the proxy can be built and the request sent through it to the test URL
    (timeout 5000 ms) is answered by a response of status 200; a rejected
    request (error, timeout, refused connection), another status or an
    agent that cannot be built gives [false].  Exactly that one request is
    sent when the agent can be built and none otherwise: there is no second
    attempt.  The store is not touched. *)
Theorem validateSingleProxy_total (p : jsstr) (w : world) :
  let a := {| agent_class := agent_class_of p; agent_proxy := p |} in
  let probe := {| req_url := TEST_URL; req_timeout := 5000; req_agent := Some a |} in
  exists (b : bool) (w' : world),
    run e (validateSingleProxy p) w = (Returned b, w') /\
    (b = true <->
     agent_error e (agent_class_of p) p = None /\
     exists resp, axios e (clock w) probe = Resolved resp /\ status resp = 200%Z) /\
    requests w' = requests w ++
                  match agent_error e (agent_class_of p) p with
                  | Some _ => []
                  | None => [probe]
                  end /\
    same_store w w'.
Proof.
  intros a probe.
  exists (valid_at e (clock w) p), (probed e p w).
  split; [apply run_validateSingleProxy|].
  split; [|split; [|apply same_store_probed]].
  - unfold valid_at. fold (agent_of p). fold (probe_request (agent_of p)).
    destruct (agent_error e (agent_class_of p) p) eqn:Ha.
    + split; [discriminate | intros [H _]; discriminate].
    + change probe with (probe_request (agent_of p)).
      destruct (axios e (clock w) (probe_request (agent_of p))) as [resp|err]; simpl.
      * rewrite Z.eqb_eq. split.
        -- intros H. split; [reflexivity|]. now exists resp.
        -- intros [_ (resp' & [= <-] & H)]. exact H.
      * split; [discriminate | intros [_ (resp' & [=] & _)]].
  - unfold probed. destruct (agent_error e (agent_class_of p) p); simpl.
    + now rewrite app_nil_r.
    + reflexivity.
Qed.

(** ** The loop of [validateProxies] *)

Lemma tested_filter (ok : jsstr -> bool) (l : list jsstr) (found : nat) :
  filter ok (tested ok l found) = firstn (100 - found) (filter ok l).
Proof.
  revert found; induction l as [|p rest IH]; intros found; simpl.
  - now rewrite firstn_nil.
  - destruct (Nat.leb_spec 100 found) as [Hfull|Hroom].
    + replace (100 - found) with 0 by lia. reflexivity.
    + simpl. destruct (ok p).
      * rewrite IH. replace (100 - found) with (S (100 - S found)) by lia.
        reflexivity.
      * apply IH.
Qed.

Lemma tested_prefix (ok : jsstr -> bool) (l : list jsstr) (found : nat) :
  exists post, l = tested ok l found ++ post.
Proof.
  revert found; induction l as [|p rest IH]; intros found; simpl.
  - now exists [].
  - destruct (100 <=? found); [now exists (p :: rest)|].
    destruct (IH (if ok p then S found else found)) as [post Hpost].
    exists post. simpl. now f_equal.
Qed.

(** When the loop leaves candidates unchecked, the last one it checked was
    the success that filled the quota. *)
Lemma tested_stop (ok : jsstr -> bool) (l post : list jsstr) (found : nat) :
  l = tested ok l found ++ post -> post <> [] -> found < 100 ->
  exists pre x,
    tested ok l found = pre ++ [x] /\ ok x = true /\
    found + List.length (filter ok (tested ok l found)) = 100.
Proof.
  revert found; induction l as [|p rest IH]; intros found Hl Hpost Hfound.
  - simpl in Hl. now subst post.
  - simpl in *. destruct (Nat.leb_spec 100 found) as [|_]; [lia|].
    simpl in Hl. injection Hl as Hl.
    destruct (ok p) eqn:Hp.
    + destruct (Nat.eq_dec (S found) 100) as [Hfull|Hroom].
      * exists [], p. assert (Ht : tested ok rest (S found) = []).
        { destruct rest; simpl; [reflexivity|].
          destruct (Nat.leb_spec 100 (S found)); [reflexivity | lia]. }
        rewrite Ht. simpl. rewrite Hp. simpl. split; [reflexivity|]. split; lia.
      * destruct (IH (S found) Hl Hpost) as (pre & x & Ht & Hx & Hn); [lia|].
        exists (p :: pre), x. rewrite Ht at 1. simpl. rewrite Hp. simpl.
        split; [reflexivity|]. split; [assumption | lia].
    + destruct (IH found Hl Hpost Hfound) as (pre & x & Ht & Hx & Hn).
      exists (p :: pre), x. rewrite Ht at 1. simpl. rewrite Hp.
      split; [reflexivity|]. split; assumption.
Qed.

Lemma tested_at_quota (ok : jsstr -> bool) (l : list jsstr) (found : nat) :
  100 <= found -> tested ok l found = [].
Proof.
  intros H. destruct l as [|p rest]; simpl; [reflexivity|].
  destruct (Nat.leb_spec 100 found); [reflexivity | lia].
Qed.

(** Below the quota every candidate is checked. *)
Lemma tested_complete (ok : jsstr -> bool) (l : list jsstr) (found : nat) :
  found + List.length (filter ok (tested ok l found)) < 100 ->
  tested ok l found = l.
Proof.
  revert found; induction l as [|p rest IH]; intros found; simpl; [reflexivity|].
  destruct (Nat.leb_spec 100 found) as [Hfull|Hroom]; simpl; [lia|].
  destruct (ok p); simpl; intros H; f_equal; apply IH; lia.
Qed.

(** At the quota the last candidate checked is the success that filled it. *)
Lemma tested_full (ok : jsstr -> bool) (l : list jsstr) (found : nat) :
  found < 100 ->
  found + List.length (filter ok (tested ok l found)) = 100 ->
  exists pre x, tested ok l found = pre ++ [x] /\ ok x = true.
Proof.
  revert found; induction l as [|p rest IH]; intros found Hfound; simpl; [lia|].
  destruct (Nat.leb_spec 100 found) as [Hfull|_]; [lia|]. simpl.
  destruct (ok p) eqn:Hp; simpl; intros Hn.
  - destruct (Nat.eq_dec (S found) 100) as [Hq|Hq].
    + exists [], p. rewrite tested_at_quota by lia. now split.
    + destruct (IH (S found)) as (pre & x & Ht & Hx); [lia | lia |].
      exists (p :: pre), x. rewrite Ht. now split.
  - destruct (IH found Hfound Hn) as (pre & x & Ht & Hx).
    exists (p :: pre), x. rewrite Ht. now split.
Qed.

Lemma requests_probed_eq (p : jsstr) (w : world) :
  requests (probed e p w) = requests w ++ probes_of e [p].
Proof.
  unfold probed, probes_of. simpl.
  destruct (agent_error e (agent_class_of p) p); simpl; now rewrite ?app_nil_r.
Qed.

(** The probes of the loop under fixed verdicts: those of the candidates
    the quota lets through, in order. *)
Lemma requests_validate_loop (ok : jsstr -> bool) :
  (forall t p, valid_at e t p = ok p) ->
  forall (l valid : list jsstr) (w : world),
    requests (snd (run e (validate_loop l valid) w))
    = requests w ++ probes_of e (tested ok l (List.length valid)).
Proof.
  intros Hok. induction l as [|p rest IH]; intros valid w.
  - simpl. now rewrite app_nil_r.
  - simpl. destruct (100 <=? List.length valid).
    + simpl. now rewrite app_nil_r.
    + rewrite run_bind, run_validateSingleProxy, Hok. unfold then_run.
      assert (Hcons : forall t, probes_of e (p :: t) = probes_of e [p] ++ probes_of e t).
      { intros t. unfold probes_of. simpl. now rewrite app_nil_r. }
      rewrite Hcons, app_assoc, <- requests_probed_eq.
      destruct (ok p) eqn:Hp.
      * change (requests (snd (run e (validate_loop rest (valid ++ [p]))
                                  (print INFO (ProxyOk p) (probed e p w)))) = 
                requests (probed e p w)
                ++ probes_of e (tested ok rest (S (List.length valid)))).
        rewrite IH, length_app, Nat.add_comm. reflexivity.
      * change (requests (snd (run e (validate_loop rest valid)
                                  (print INFO (ProxyFail p) (probed e p w)))) =
                requests (probed e p w)
                ++ probes_of e (tested ok rest (List.length valid))).
        rewrite IH. reflexivity.
Qed.

(** The loop under verdicts that do not change with time. *)
Lemma run_validate_loop (ok : jsstr -> bool) :
  (forall t p, valid_at e t p = ok p) ->
  forall (l valid : list jsstr) (w : world),
  exists w',
    run e (validate_loop l valid) w
    = (Returned (valid ++ filter ok (tested ok l (List.length valid))), w') /\
    same_store w w' /\
    console w' = console w ++ map (verdict ok) (tested ok l (List.length valid)).
Proof.
  intros Hok. induction l as [|p rest IH]; intros valid w.
  - exists w. simpl. rewrite !app_nil_r. repeat split.
  - simpl. destruct (100 <=? List.length valid).
    + exists w. simpl. rewrite !app_nil_r. repeat split.
    + rewrite run_bind, run_validateSingleProxy, Hok. unfold then_run.
      destruct (ok p) eqn:Hp.
      * destruct (IH (valid ++ [p]) (print INFO (ProxyOk p) (probed e p w)))
          as (w' & Hrun & Hstore & Hcon).
        rewrite length_app, Nat.add_comm in Hrun, Hcon. simpl in Hrun, Hcon.
        exists w'. simpl. rewrite Hrun, Hp, <- app_assoc. split; [reflexivity|].
        split.
        -- eapply same_store_trans; [apply same_store_probed|].
           eapply same_store_trans; [apply same_store_print | exact Hstore].
        -- rewrite Hcon. simpl. rewrite console_probed, <- app_assoc.
           unfold verdict at 2. now rewrite Hp.
      * destruct (IH valid (print INFO (ProxyFail p) (probed e p w)))
          as (w' & Hrun & Hstore & Hcon).
        exists w'. simpl. rewrite Hrun, Hp. split; [reflexivity|].
        split.
        -- eapply same_store_trans; [apply same_store_probed|].
           eapply same_store_trans; [apply same_store_print | exact Hstore].
        -- rewrite Hcon. simpl. rewrite console_probed, <- app_assoc.
           unfold verdict at 2. now rewrite Hp.
Qed.

(** The loop under any environment: it returns, leaves the store alone,
    adds only candidates of its list, and never grows the result past 100. *)
Lemma run_validate_loop_any (l valid : list jsstr) (w : world) :
  exists valid' w',
    run e (validate_loop l valid) w = (Returned valid', w') /\
    same_store w w' /\
    incl valid' (valid ++ l) /\
    List.length valid' <= Nat.max 100 (List.length valid).
Proof.
  revert valid w; induction l as [|p rest IH]; intros valid w.
  - exists valid, w. simpl. rewrite app_nil_r.
    repeat split; [apply incl_refl | lia].
  - simpl. destruct (Nat.leb_spec 100 (List.length valid)) as [Hfull|Hroom].
    + exists valid, w. simpl. repeat split; [now apply incl_appl, incl_refl | lia].
    + rewrite run_bind, run_validateSingleProxy. unfold then_run.
      destruct (valid_at e (clock w) p).
      * destruct (IH (valid ++ [p]) (print INFO (ProxyOk p) (probed e p w)))
          as (valid' & w' & Hrun & Hstore & Hincl & Hlen).
        exists valid', w'. simpl. rewrite Hrun. split; [reflexivity|].
        split; [|split].
        -- eapply same_store_trans; [apply same_store_probed|].
           eapply same_store_trans; [apply same_store_print | exact Hstore].
        -- now rewrite <- app_assoc in Hincl.
        -- rewrite length_app in Hlen. simpl in Hlen. lia.
      * destruct (IH valid (print INFO (ProxyFail p) (probed e p w)))
          as (valid' & w' & Hrun & Hstore & Hincl & Hlen).
        exists valid', w'. simpl. rewrite Hrun. split; [reflexivity|].
        split; [|split; [|assumption]].
        -- eapply same_store_trans; [apply same_store_probed|].
           eapply same_store_trans; [apply same_store_print | exact Hstore].
        -- intros x Hx. apply Hincl in Hx. apply in_app_or in Hx as [Hx|Hx];
             apply in_or_app; [now left | right; now right].
Qed.

End Validation.

(** A proxy that answers, and one that does not. *)
Lemma validateSingleProxy_total_witness :
  fst (run scenario (validateSingleProxy (js "http://1.2.3.4:8080")) fresh) = Returned true /\
  fst (run scenario (validateSingleProxy (js "http://5.6.7.8:3128")) fresh) = Returned false.
Proof.
  split.
  - destruct (validateSingleProxy_total scenario (js "http://1.2.3.4:8080") fresh)
      as (b & w' & Hrun & Hb & _).
    rewrite Hrun. cbn [fst]. f_equal. apply Hb. split; [reflexivity|].
    eexists. split; reflexivity.
  - destruct (validateSingleProxy_total scenario (js "http://5.6.7.8:3128") fresh)
      as (b & w' & Hrun & Hb & _).
    rewrite Hrun. cbn [fst]. f_equal. destruct b; [|reflexivity].
    destruct Hb as [Hb _]. destruct (Hb eq_refl) as (_ & resp & Hres & _).
    vm_compute in Hres. discriminate.
Defined.

Section Quota.

Variable e : env.

#[local] Arguments Nat.leb : simpl never.
#[local] Arguments Nat.sub : simpl never.

Lemma fixed_verdicts (ok : jsstr -> bool) :
  (forall p w, fst (run e (validateSingleProxy p) w) = Returned (ok p)) ->
  forall t p, valid_at e t p = ok p.
Proof.
  intros H t p.
  specialize (H p {| files := fun _ => None; clock := t; requests := [];
                     writes := []; console := []; interval := None |}).
  rewrite run_validateSingleProxy in H. simpl in H. now injection H.
Qed.

(** C3: under verdicts that are fixed per candidate ([validateSingleProxy]
    returns [ok p] for [p] whenever it is called), [validateProxies] returns
    the first 100 candidates of the list that validate, in list order: its
    length is [min 100 (number of candidates that validate)] and every
    element is a candidate that validates.  The candidates it checks are a
    prefix of the list: the console shows one verdict per checked candidate
    and the probes sent are those of the checked candidates, in order, and
    the result is made of the successes among them.  With fewer than 100
    successes the whole list is checked; with 100 the last candidate checked
    is the success that filled the quota, so nothing after the 100th success
    is checked. *)
Theorem validateProxies_quota (ok : jsstr -> bool) (l : list jsstr) (w : world) :
  (forall p w0, fst (run e (validateSingleProxy p) w0) = Returned (ok p)) ->
  exists valid w',
    run e (validateProxies l) w = (Returned valid, w') /\
    valid = firstn 100 (filter ok l) /\
    List.length valid = Nat.min 100 (List.length (filter ok l)) /\
    Forall (fun p => In p l /\ ok p = true) valid /\
    exists checked unchecked,
      l = checked ++ unchecked /\
      valid = filter ok checked /\
      console w' = console w ++ [(INFO, ValidatingFetched)]
                   ++ map (verdict ok) checked
                   ++ [(INFO, FoundValid (List.length valid))] /\
      requests w' = requests w ++ probes_of e checked /\
      (List.length valid < 100 -> unchecked = []) /\
      (List.length valid = 100 ->
       exists pre x, checked = pre ++ [x] /\ ok x = true).
Proof.
  intros Hfixed. pose proof (fixed_verdicts ok Hfixed) as Hok.
  destruct (run_validate_loop e ok Hok l [] (print INFO ValidatingFetched w))
    as (w1 & Hrun & _ & Hcon).
  pose proof (requests_validate_loop e ok Hok l [] (print INFO ValidatingFetched w))
    as Hreq.
  rewrite Hrun in Hreq.
  simpl in Hrun, Hcon, Hreq.
  assert (Hvalid : filter ok (tested ok l 0) = firstn 100 (filter ok l))
    by (rewrite tested_filter; reflexivity).
  rewrite Hvalid in Hrun.
  set (valid := firstn 100 (filter ok l)) in *.
  exists valid, (print INFO (FoundValid (List.length valid)) w1).
  split.
  { unfold validateProxies. simpl. rewrite run_bind, Hrun. reflexivity. }
  split; [reflexivity|].
  split; [apply length_firstn|].
  split.
  { apply Forall_forall. intros p Hp.
    assert (Hin : In p (filter ok l)).
    { rewrite <- (firstn_skipn 100 (filter ok l)). apply in_or_app. now left. }
    now apply filter_In in Hin. }
  destruct (tested_prefix ok l 0) as [post Hpost].
  exists (tested ok l 0), post. split; [exact Hpost|].
  split; [now rewrite Hvalid|]. split.
  { simpl. rewrite Hcon, <- !app_assoc. reflexivity. }
  split; [exact Hreq|]. rewrite <- Hvalid. split.
  - intros Hlt. rewrite (tested_complete ok l 0) in Hpost by (simpl; exact Hlt).
    rewrite <- (app_nil_r l) in Hpost at 1. now apply app_inv_head in Hpost.
  - intros Hfull. apply (tested_full ok l 0); [lia | exact Hfull].
Qed.

End Quota.

Lemma validateProxies_quota_witness :
  exists w',
    run scenario (validateProxies [js "http://1.2.3.4:8080"; js "http://5.6.7.8:3128";
                                   js "https://9.9.9.9:443"]) fresh
    = (Returned [js "http://1.2.3.4:8080"; js "https://9.9.9.9:443"], w').
Proof.
  match goal with |- exists w', run ?e (validateProxies ?l) ?w = _ =>
    destruct (validateProxies_quota e scenario_ok l w) as (valid & w' & Hrun & Hv & _)
  end.
  - intros p w0. rewrite run_validateSingleProxy. unfold valid_at. simpl.
    now destruct (scenario_ok p).
  - exists w'. rewrite Hrun, Hv. reflexivity.
Defined.

(* ================================================================== *)
(** * 10. Fetching the candidate lists *)
(* ================================================================== *)

Section SetFacts.

Lemma In_set_add (acc : list jsstr) (x y : jsstr) :
  In y (set_add acc x) <-> In y acc \/ y = x.
Proof.
  unfold set_add. destruct (in_dec jsstr_eq_dec x acc) as [Hin|Hout].
  - split; [now left | intros [H| ->]; assumption].
  - rewrite in_app_iff. simpl. intuition.
Qed.


Lemma add_line_normalize (acc : list jsstr) (line : jsstr) :
  add_line acc line = set_add acc (normalize line).
Proof. unfold add_line, normalize. now destruct (includes line _). Qed.

Lemma In_add_lines (lines acc : list jsstr) (x : jsstr) :
  In x (fold_left add_line lines acc) <->
  In x acc \/ exists line, In line lines /\ x = normalize line.
Proof.
  revert acc; induction lines as [|l lines IH]; intros acc; simpl.
  - split; [now left | intros [H|(line & [] & _)]; assumption].
  - rewrite IH, add_line_normalize, In_set_add. split.
    + intros [[H|H]|(line & Hl & Hx)].
      * now left.
      * right. exists l. split; [now left | assumption].
      * right. exists line. split; [now right | assumption].
    + intros [H|(line & [<-|Hl] & Hx)].
      * left. now left.
      * left. now right.
      * right. now exists line.
Qed.


Lemma add_lines_nil (lines acc : list jsstr) :
  fold_left add_line lines acc = [] <-> acc = [] /\ lines = [].
Proof.
  split.
  - intros H. assert (Hno : forall x, ~ In x (fold_left add_line lines acc))
      by (intros x; rewrite H; intros []).
    split.
    + destruct acc as [|a acc]; [reflexivity|]. exfalso.
      apply (Hno a), In_add_lines. left. now left.
    + destruct lines as [|l lines]; [reflexivity|]. exfalso.
      apply (Hno (normalize l)), In_add_lines. right. exists l. split; [now left | reflexivity].
  - intros [-> ->]. reflexivity.
Qed.

End SetFacts.

Section Fetch.

Variable e : env.

(** The candidate lines of a source are the non-empty trimmed lines of the
    body of a response with status 200. *)
Lemma In_source_yield (res : axios_result) (line : jsstr) :
  In line (source_yield res) <->
  exists resp body raw,
    res = Resolved resp /\ status resp = 200%Z /\ data resp = VString body /\
    In raw (split body NL) /\ line = trim raw /\ line <> [].
Proof.
  unfold source_yield, candidate_lines. split.
  - destruct res as [resp|err]; [|intros []].
    destruct (Z.eqb_spec (status resp) 200) as [H200|]; [|intros []].
    destruct (data resp) as [body|b] eqn:Hdata; simpl;
      [|destruct b; intros []].
    destruct body as [|c body]; simpl is_truthy; cbv iota; [intros []|].
    intros H. apply filter_In in H as [Hin Hne]. apply in_map_iff in Hin as (raw & <- & Hraw).
    exists resp, (c :: body), raw. repeat split; try assumption.
    apply negb_true_iff, jsstr_eqb_nil in Hne. exact Hne.
  - intros (resp & body & raw & -> & H200 & Hdata & Hraw & -> & Hne).
    rewrite H200, Hdata. simpl.
    destruct body as [|c body].
    + exfalso. apply Hne. vm_compute in Hraw. destruct Hraw as [<-|[]]. reflexivity.
    + simpl. apply filter_In. split.
      * apply in_map_iff. now exists raw.
      * apply negb_true_iff, jsstr_eqb_nil. exact Hne.
Qed.

Lemma source_fails_yield (res : axios_result) :
  source_fails res -> source_yield res = [].
Proof.
  destruct res as [resp|err]; simpl; [|reflexivity].
  intros H. now destruct (Z.eqb_spec (status resp) 200).
Qed.

Lemma In_yields (t : nat) (srcs : list jsstr) (line : jsstr) :
  In line (yields e t srcs) <->
  exists i src, nth_error srcs i = Some src /\
                In line (source_yield (axios e (t + i) (source_request src))).
Proof.
  revert t; induction srcs as [|s srcs IH]; intros t; simpl.
  - split; [intros [] | intros ([|i] & src & [=] & _)].
  - rewrite in_app_iff, IH. split.
    + intros [H|(i & src & Hi & H)].
      * exists 0, s. rewrite Nat.add_0_r. now split.
      * exists (S i), src. rewrite Nat.add_succ_r. now split.
    + intros ([|i] & src & Hi & H); simpl in Hi.
      * injection Hi as <-. rewrite Nat.add_0_r in H. now left.
      * right. exists i, src. rewrite Nat.add_succ_r in H. now split.
Qed.

(** One source: whatever happens to its request, the loop goes on with the
    set, grown by the lines the source gave. *)
Lemma run_fetch_source (src : jsstr) (acc : list jsstr) (w : world) :
  exists w',
    run e (fetch_source src acc) w
    = (Returned (fold_left add_line
                   (source_yield (axios e (clock w) (source_request src))) acc), w') /\
    same_store w w' /\
    clock w' = S (clock w) /\
    requests w' = requests w ++ [source_request src].
Proof.
  unfold fetch_source, source_yield. rewrite run_try_catch. simpl.
  destruct (axios e (clock w) (source_request src)) as [resp|err]; simpl.
  - destruct ((status resp =? 200)%Z && is_truthy (data resp)); simpl.
    + destruct (data resp) as [body|b]; simpl;
        eexists; (split; [reflexivity|]); repeat split.
    + eexists. split; [reflexivity|]. repeat split.
  - eexists. split; [reflexivity|]. repeat split.
Qed.

Lemma run_fetch_sources (srcs : list jsstr) (acc : list jsstr) (w : world) :
  exists w',
    run e (fetch_sources srcs acc) w
    = (Returned (fold_left add_line (yields e (clock w) srcs) acc), w') /\
    same_store w w' /\
    clock w' = clock w + List.length srcs /\
    requests w' = requests w ++ map source_request srcs.
Proof.
  revert acc w; induction srcs as [|src srcs IH]; intros acc w.
  - exists w. simpl. rewrite Nat.add_0_r, app_nil_r. repeat split.
  - destruct (run_fetch_source src acc w) as (w1 & Hrun1 & Hst1 & Hck1 & Hrq1).
    destruct (IH (fold_left add_line
                    (source_yield (axios e (clock w) (source_request src))) acc) w1)
      as (w' & Hrun & Hst & Hck & Hrq).
    exists w'. cbn [fetch_sources]. rewrite run_bind, Hrun1. unfold then_run.
    rewrite Hrun, Hck1. cbn [yields]. rewrite fold_left_app.
    split; [reflexivity|]. split; [eapply same_store_trans; eassumption|].
    split.
    + rewrite Hck, Hck1. simpl. lia.
    + rewrite Hrq, Hrq1, <- app_assoc. reflexivity.
Qed.

(** [fetchGitHubProxies] always returns, with the lines of both sources
    added to an empty set in order. *)
Lemma run_fetchGitHubProxies (w : world) :
  exists w',
    run e fetchGitHubProxies w
    = (Returned (fold_left add_line (yields e (clock w) GITHUB_SOURCES) []), w') /\
    same_store w w' /\
    clock w' = clock w + 2 /\
    requests w' = requests w ++ map source_request GITHUB_SOURCES.
Proof.
  destruct (run_fetch_sources GITHUB_SOURCES [] (print INFO FetchingProxies w))
    as (w1 & Hrun & Hst & Hck & Hrq).
  exists (print INFO (TotalFetched
            (List.length (fold_left add_line (yields e (clock w) GITHUB_SOURCES) []))) w1).
  unfold fetchGitHubProxies.
  rewrite run_bind. change (run e (console_log FetchingProxies) w)
    with (Returned tt, print INFO FetchingProxies w).
  unfold then_run. rewrite run_bind, Hrun. unfold then_run.
  split; [reflexivity|]. split; [|split].
  - eapply same_store_trans; [apply same_store_print|].
    eapply same_store_trans; [exact Hst | apply same_store_print].
  - exact Hck.
  - exact Hrq.
Qed.

End Fetch.

(* ================================================================== *)
(** * 11. The refresh cycle *)
(* ================================================================== *)

Section Refresh.

Variable e : env.

#[local] Arguments Nat.leb : simpl never.
#[local] Arguments Nat.max : simpl never.

Lemma run_validateProxies_any (l : list jsstr) (w : world) :
  exists valid w',
    run e (validateProxies l) w = (Returned valid, w') /\
    same_store w w' /\
    incl valid l /\
    List.length valid <= 100.
Proof.
  destruct (run_validate_loop_any e l [] (print INFO ValidatingFetched w))
    as (valid & w1 & Hrun & Hst & Hincl & Hlen).
  exists valid, (print INFO (FoundValid (List.length valid)) w1).
  unfold validateProxies. simpl. rewrite run_bind, Hrun. simpl.
  split; [reflexivity|]. split; [|split].
  - eapply same_store_trans; [apply same_store_print|].
    eapply same_store_trans; [exact Hst | apply same_store_print].
  - exact Hincl.
  - simpl in Hlen. lia.
Qed.

(** The three ways a refresh ends. *)
Lemma run_scrapeValidateAndInject (w : world) :
  exists fetched w1,
    run e fetchGitHubProxies w = (Returned fetched, w1) /\
    same_store w w1 /\
    clock w1 = clock w + 2 /\
    requests w1 = requests w ++ map source_request GITHUB_SOURCES /\
    ((fetched = [] /\
      run e scrapeValidateAndInject w = (Returned false, print ERROR NoProxiesFound w1))
     \/
     (fetched <> [] /\
      exists valid w2,
        run e (validateProxies fetched) w1 = (Returned valid, w2) /\
        same_store w1 w2 /\
        incl valid fetched /\
        List.length valid <= 100 /\
        ((valid = [] /\
          run e scrapeValidateAndInject w
          = (Returned false, print ERROR NoValidProxies w2))
         \/
         (valid <> [] /\
          run e scrapeValidateAndInject w = (Returned true, installed e valid w2))))).
Proof.
  destruct (run_fetchGitHubProxies e w) as (w1 & Hfetch & Hst1 & Hck1 & Hrq1).
  set (fetched := fold_left add_line (yields e (clock w) GITHUB_SOURCES) []) in *.
  exists fetched, w1. repeat (split; [assumption|]).
  unfold scrapeValidateAndInject. rewrite run_bind, Hfetch. unfold then_run.
  destruct fetched as [|x fetched]; [left; split; reflexivity | right].
  split; [discriminate|].
  destruct (run_validateProxies_any (x :: fetched) w1)
    as (valid & w2 & Hval & Hst2 & Hincl & Hlen).
  exists valid, w2. repeat (split; [assumption|]).
  cbn [List.length Nat.eqb]. rewrite run_bind, Hval. unfold then_run.
  destruct valid as [|v valid]; [left; split; reflexivity | right].
  split; [discriminate|].
  cbn [List.length Nat.eqb].
  rewrite run_bind. change (run e (writeFileSync OUTPUT_FILE (join (v :: valid) NL)) w2)
    with (Returned tt, write OUTPUT_FILE (join (v :: valid) NL) w2).
  unfold then_run. rewrite run_bind.
  match goal with |- context [run e (console_log WroteValidProxies) ?w0] =>
    change (run e (console_log WroteValidProxies) w0)
      with (Returned tt, print INFO WroteValidProxies w0)
  end.
  unfold then_run. rewrite run_bind.
  match goal with |- context [run e math_random ?w0] =>
    change (run e math_random w0)
      with (Returned (random e (clock w0) mod 2 ^ 53)%N, tick w0)
  end.
  unfold then_run. rewrite run_bind, run_setEnvProxy. reflexivity.
Qed.

End Refresh.

Section Candidates.

Variable e : env.

Lemma trimStart_incl (s : jsstr) (c : code_unit) : In c (trimStart s) -> In c s.
Proof.
  induction s as [|x s IH]; simpl; [tauto|].
  destruct (isWhiteSpace x); [intros H; right; now apply IH | tauto].
Qed.

Lemma trim_incl (s : jsstr) (c : code_unit) : In c (trim s) -> In c s.
Proof.
  unfold trim, trimEnd. intros H.
  apply in_rev, trimStart_incl in H. apply in_rev in H.
  now apply trimStart_incl.
Qed.

Lemma normalize_no_newline (line : jsstr) :
  ~ In 10%N line -> ~ In 10%N (normalize line).
Proof.
  unfold normalize. destruct (includes line _); [tauto|].
  intros Hl H. apply in_app_or in H as [H|H]; [|now apply Hl].
  vm_compute in H. intuition discriminate.
Qed.

(** No endpoint that comes out of the fetch holds a newline: each stems
    from a piece of a body split at the newlines. *)
Lemma fetched_no_newline (t : nat) (srcs : list jsstr) (x : jsstr) :
  In x (fold_left add_line (yields e t srcs) []) -> ~ In 10%N x.
Proof.
  intros H. apply In_add_lines in H as [[]|(line & Hline & ->)].
  apply normalize_no_newline.
  apply In_yields in Hline as (i & src & _ & Hline).
  apply In_source_yield in Hline as (resp & body & raw & _ & _ & _ & Hraw & -> & _).
  intros H. apply trim_incl in H.
  pose proof (split_unit_pieces 10%N body) as Hpieces.
  rewrite Forall_forall in Hpieces. now apply (Hpieces raw).
Qed.


Lemma offers_line_yield (res : axios_result) :
  offers_line res <-> source_yield res <> [].
Proof.
  split.
  - intros (resp & body & raw & Hres & H200 & Hdata & Hraw & Hne) Hnil.
    assert (Hin : In (trim raw) (source_yield res)).
    { apply In_source_yield. now exists resp, body, raw. }
    now rewrite Hnil in Hin.
  - intros Hne. destruct (source_yield res) as [|line rest] eqn:Hy; [congruence|].
    assert (Hin : In line (source_yield res)) by (rewrite Hy; now left).
    apply In_source_yield in Hin as (resp & body & raw & Hres & H200 & Hdata & Hraw & -> & Hl).
    now exists resp, body, raw.
Qed.

(** C6: [fetchGitHubProxies] always returns, whatever becomes of the two
    requests, and both sources are asked.  A source offers a line when its
    request is answered with status 200 and a string body one of whose
    lines is not empty once trimmed; a source that fails (rejected request
    or status other than 200) offers none.  When one source fails and the
    other offers a line, the result is not empty; the result is empty
    exactly when neither source offers a line, and then
    [scrapeValidateAndInject] returns [false] without a probe and without
    touching the store. *)
Theorem fetchGitHubProxies_resilient (w : world) :
  let first := axios e (clock w) (source_request (source 0)) in
  let second := axios e (S (clock w)) (source_request (source 1)) in
  exists result w',
    run e fetchGitHubProxies w = (Returned result, w') /\
    requests w' = requests w ++ [source_request (source 0); source_request (source 1)] /\
    (source_fails first -> ~ offers_line first) /\
    (source_fails second -> ~ offers_line second) /\
    (source_fails first -> offers_line second -> result <> []) /\
    (source_fails second -> offers_line first -> result <> []) /\
    (result = [] <-> ~ offers_line first /\ ~ offers_line second) /\
    (result = [] ->
     exists w'',
       run e scrapeValidateAndInject w = (Returned false, w'') /\
       same_store w w'' /\
       requests w'' = requests w ++ map source_request GITHUB_SOURCES).
Proof.
  intros first second.
  destruct (run_scrapeValidateAndInject e w)
    as (fetched & w1 & Hfetch & Hst & _ & Hrq & Hcases).
  destruct (run_fetchGitHubProxies e w) as (w1' & Hfetch' & _).
  assert (Hfetched : fetched = fold_left add_line (yields e (clock w) GITHUB_SOURCES) [])
    by congruence.
  assert (Hnil : fetched = [] <-> ~ offers_line first /\ ~ offers_line second).
  { assert (Hy : yields e (clock w) GITHUB_SOURCES
                 = source_yield first ++ source_yield second)
      by (cbn [GITHUB_SOURCES yields]; rewrite app_nil_r; reflexivity).
    rewrite Hfetched, add_lines_nil, Hy, !offers_line_yield. split.
    - intros [_ H]. apply app_eq_nil in H as [-> ->]. split; intros H; now apply H.
    - intros [H1 H2].
      destruct (source_yield first); [|exfalso; apply H1; discriminate].
      destruct (source_yield second); [|exfalso; apply H2; discriminate].
      now split. }
  assert (Hfail : forall res, source_fails res -> ~ offers_line res).
  { intros res Hf Ho. apply offers_line_yield in Ho. apply Ho.
    now apply source_fails_yield. }
  exists fetched, w1. split; [exact Hfetch|]. split; [exact Hrq|].
  split; [apply Hfail|]. split; [apply Hfail|].
  split; [intros _ H2 H; apply Hnil in H; tauto|].
  split; [intros _ H1 H; apply Hnil in H; tauto|].
  split; [exact Hnil|].
  intros Hempty. destruct Hcases as [[_ Hrun]|[Hne _]]; [|contradiction].
  eexists. split; [exact Hrun|]. split.
  - eapply same_store_trans; [exact Hst | apply same_store_print].
  - exact Hrq.
Qed.

End Candidates.

(** The first list is down, the second offers one proxy: the fetch still
    returns that proxy. *)
Lemma fetchGitHubProxies_resilient_witness :
  fst (run first_source_down fetchGitHubProxies fresh) <> Returned [].
Proof.
  destruct (fetchGitHubProxies_resilient first_source_down fresh)
    as (result & w' & Hrun & _ & _ & _ & Hone & _).
  rewrite Hrun. cbn [fst]. intros [= Hnil]. revert Hnil. apply Hone.
  - exact I.
  - exists {| status := 200; data := VString (js "1.2.3.4:8080") |},
           (js "1.2.3.4:8080"), (js "1.2.3.4:8080").
    repeat split; [now left | discriminate].
Defined.

Section Store.

Variable e : env.

Lemma env_lines_same_files (w w' : world) :
  files w' ENV_PATH = files w ENV_PATH -> env_lines w' = env_lines w.
Proof. unfold env_lines. now intros ->. Qed.

(** The random index falls inside a non-empty list of at most 100. *)
Lemma chosen_from_In (valid : list jsstr) (w : world) :
  valid <> [] -> List.length valid <= 100 ->
  In (chosen_from e valid w) valid.
Proof.
  intros Hne Hlen. unfold chosen_from.
  assert (Hidx : floor_mul (random e (clock w) mod 2 ^ 53)%N (List.length valid)
                 < List.length valid).
  { apply floor_mul_lt.
    - apply N.mod_lt. discriminate.
    - destruct valid; [contradiction | simpl; lia].
    - apply N.le_lt_trans with 100%N; [lia | reflexivity]. }
  destruct (nth_error valid _) as [c|] eqn:Hnth.
  - simpl. eapply nth_error_In. exact Hnth.
  - apply nth_error_None in Hnth. lia.
Qed.

(** C1: when [scrapeValidateAndInject] returns [true], it has written
    exactly two files, first the pool listing [valid.join('\n')] and then
    [.env] with the entry of the chosen endpoint, and the chosen endpoint is
    an element of [valid]; the lines of the listing are the elements of
    [valid], so the endpoint installed is one of the lines of the listing
    written in the same cycle. *)
Theorem refresh_installs_pool_member (w w' : world) :
  run e scrapeValidateAndInject w = (Returned true, w') ->
  exists valid chosen,
    writes w' = writes w ++
                [(OUTPUT_FILE, join valid NL);
                 (ENV_PATH, join (updated_env_lines (env_lines w) chosen) NL)] /\
    files w' OUTPUT_FILE = Some (join valid NL) /\
    split (join valid NL) NL = valid /\
    env_lines w' = updated_env_lines (env_lines w) chosen /\
    In chosen valid.
Proof.
  intros Hrun.
  destruct (run_scrapeValidateAndInject e w)
    as (fetched & w1 & Hfetch & Hst1 & _ & _ & Hcases).
  destruct Hcases as [[_ H]|(Hne & valid & w2 & _ & Hst2 & Hincl & Hlen & Hcases)];
    [congruence|].
  destruct Hcases as [[_ H]|[Hvalid H]]; [congruence|].
  rewrite Hrun in H. injection H as ->.
  pose proof (same_store_trans _ _ _ Hst1 Hst2) as (Hfiles & Hwrites & _).
  set (w3 := print INFO WroteValidProxies (write OUTPUT_FILE (join valid NL) w2)).
  assert (Henv : env_lines (tick w3) = env_lines w).
  { apply env_lines_same_files. simpl. now rewrite Hfiles. }
  assert (Hin : In (chosen_from e valid w3) valid) by now apply chosen_from_In.
  assert (Hnl : Forall (fun q => ~ In 10%N q) valid).
  { destruct (run_fetchGitHubProxies e w) as (w1' & Hfetch' & _).
    assert (Hfetched : fetched = fold_left add_line (yields e (clock w) GITHUB_SOURCES) [])
      by congruence.
    apply Forall_forall. intros x Hx. apply Hincl in Hx. rewrite Hfetched in Hx.
    eapply fetched_no_newline. exact Hx. }
  exists valid, (chosen_from e valid w3).
  unfold installed. fold w3. cbv zeta. rewrite Henv.
  split; [simpl; rewrite Hwrites, <- app_assoc; reflexivity|].
  split; [reflexivity|].
  split; [now apply split_join|].
  split; [|exact Hin].
  assert (Hchosen : ~ In 10%N (chosen_from e valid w3))
    by (rewrite Forall_forall in Hnl; now apply Hnl).
  pose proof (env_lines_after_set e _ (tick w3) Hchosen) as Hset.
  rewrite run_setEnvProxy, Henv in Hset. exact Hset.
Qed.

(** C2: [scrapeValidateAndInject] always returns a boolean.  It returns
    [false] exactly when the fetch gave no candidate or no candidate passed
    validation, and then the store is as before: no file was written, so
    [.env] and the pool listing are unchanged. *)
Theorem failed_refresh_keeps_store (w : world) :
  exists (b : bool) (w' : world),
    run e scrapeValidateAndInject w = (Returned b, w') /\
    (b = false <->
     exists fetched w1,
       run e fetchGitHubProxies w = (Returned fetched, w1) /\
       (fetched = [] \/
        exists w2, run e (validateProxies fetched) w1 = (Returned [], w2))) /\
    (b = false ->
     files w' = files w /\ writes w' = writes w /\
     fst (run e getCurrentProxyFromEnv w') = fst (run e getCurrentProxyFromEnv w)).
Proof.
  destruct (run_scrapeValidateAndInject e w)
    as (fetched & w1 & Hfetch & Hst1 & _ & _ & Hcases).
  assert (Hkeep : forall w', same_store w w' ->
            files w' = files w /\ writes w' = writes w /\
            fst (run e getCurrentProxyFromEnv w') = fst (run e getCurrentProxyFromEnv w)).
  { intros w' (Hf & Hw & _). repeat split; try assumption.
    rewrite !run_getCurrentProxyFromEnv. simpl. do 2 f_equal.
    apply env_lines_same_files. now rewrite Hf. }
  destruct Hcases as [[Hnil Hrun]|(Hne & valid & w2 & Hval & Hst2 & _ & _ & Hcases)].
  - exists false. eexists. split; [exact Hrun|]. split.
    + split; [|reflexivity]. intros _. exists fetched, w1. split; [assumption | now left].
    + intros _. apply Hkeep.
      eapply same_store_trans; [exact Hst1 | apply same_store_print].
  - destruct Hcases as [[Hnil Hrun]|[Hvalid Hrun]].
    + exists false. eexists. split; [exact Hrun|]. split.
      * split; [|reflexivity]. intros _. exists fetched, w1. split; [assumption|].
        right. exists w2. now rewrite <- Hnil.
      * intros _. apply Hkeep.
        eapply same_store_trans; [exact Hst1|].
        eapply same_store_trans; [exact Hst2 | apply same_store_print].
    + exists true. eexists. split; [exact Hrun|]. split; [|discriminate].
      split; [discriminate|].
      intros (fetched' & w1' & Hfetch' & Hcause). exfalso.
      rewrite Hfetch in Hfetch'. injection Hfetch' as <- <-.
      destruct Hcause as [Hnil|(w2' & Hval')]; [contradiction|].
      rewrite Hval in Hval'. injection Hval' as Hnil _. contradiction.
Qed.

End Store.

Lemma scenario_refresh :
  fst (run scenario scrapeValidateAndInject fresh) = Returned true.
Proof. vm_compute. reflexivity. Qed.

(** The scenario of the specification: the pool is the two answering
    proxies and the active proxy is one of them. *)
Lemma refresh_installs_pool_member_witness :
  exists chosen,
    In chosen [js "http://1.2.3.4:8080"; js "https://9.9.9.9:443"] /\
    env_lines (snd (run scenario scrapeValidateAndInject fresh))
    = [ENV_PREFIX ++ chosen].
Proof.
  pose proof scenario_refresh as Htrue.
  destruct (run scenario scrapeValidateAndInject fresh) as [b w'] eqn:Hrun.
  simpl in Htrue. subst b.
  destruct (refresh_installs_pool_member scenario fresh w' Hrun)
    as (valid & chosen & _ & Hpool & Hsplit & Henv & Hin).
  assert (Hfile : files w' OUTPUT_FILE
                  = Some (js "http://1.2.3.4:8080" ++ NL ++ js "https://9.9.9.9:443")).
  { replace w' with (snd (run scenario scrapeValidateAndInject fresh))
      by now rewrite Hrun.
    vm_compute. reflexivity. }
  rewrite Hpool in Hfile. injection Hfile as Hfile.
  rewrite Hfile in Hsplit. vm_compute in Hsplit. subst valid.
  exists chosen. split; [exact Hin|]. exact Henv.
Defined.

(* ================================================================== *)
(** * 12. The check cycle *)
(* ================================================================== *)

Section Cycle.

Variable e : env.

(** C8: when [.env] holds a non-empty active proxy and its validation
    succeeds, [checkCurrentProxy] sends the one probe of that validation
    and nothing else (no request to a source, no probe of a candidate),
    prints that the proxy is still valid, and leaves every file as it was:
    nothing is written. *)
Theorem checkCurrentProxy_still_valid (p : jsstr) (w : world) :
  fst (run e getCurrentProxyFromEnv w) = Returned (Some p) ->
  p <> [] ->
  fst (run e (validateSingleProxy p) w) = Returned true ->
  exists w',
    run e checkCurrentProxy w = (Returned tt, w') /\
    files w' = files w /\
    writes w' = writes w /\
    (exists a, agent_proxy a = p /\ requests w' = requests w ++ [probe_request a]) /\
    console w' = console w ++ [(INFO, StillValid p)].
Proof.
  rewrite run_getCurrentProxyFromEnv, run_validateSingleProxy. cbn [fst].
  intros [= Hcur] Hp [= Hvalid].
  exists (print INFO (StillValid p) (probed e p w)).
  assert (Hprobed : probed e p w = tick (send (probe_request (agent_of p)) w)).
  { unfold probed. unfold valid_at in Hvalid.
    now destruct (agent_error e (agent_class_of p) p). }
  split.
  - unfold checkCurrentProxy.
    rewrite run_bind, run_getCurrentProxyFromEnv. unfold then_run. rewrite Hcur.
    destruct p as [|c p]; [contradiction|]. cbn [falsy template].
    rewrite run_bind, run_validateSingleProxy. unfold then_run. rewrite Hvalid.
    reflexivity.
  - rewrite Hprobed. repeat split. now exists (agent_of p).
Qed.

End Cycle.

Lemma checkCurrentProxy_still_valid_witness :
  exists w',
    run (steady (fun _ => true) scenario_serve 0)
        checkCurrentProxy (world_with (Some (js "PROXY_SERVER=http://1.1.1.1:80")))
    = (Returned tt, w') /\
    writes w' = [] /\
    List.length (requests w') = 1.
Proof.
  destruct (checkCurrentProxy_still_valid
              (steady (fun _ => true) scenario_serve 0)
              (js "http://1.1.1.1:80")
              (world_with (Some (js "PROXY_SERVER=http://1.1.1.1:80"))))
    as (w' & Hrun & _ & Hw & (a & _ & Hrq) & _).
  - vm_compute. reflexivity.
  - discriminate.
  - vm_compute. reflexivity.
  - exists w'. split; [exact Hrun|]. split; [exact Hw|]. rewrite Hrq. reflexivity.
Defined.

(* ================================================================== *)
(** * 13. The timer *)
(* ================================================================== *)

Section Timer.

Variable e : env.



End Timer.



(* ================================================================== *)
(** * 14. More on the [.env] file *)
(* ================================================================== *)

Section MoreStrings.





Lemma trimStart_app_keep (x y : jsstr) (c : code_unit) :
  isWhiteSpace c = false -> trimStart (x ++ c :: y) = trimStart x ++ c :: y.
Proof.
  intros Hc. induction x as [|a x IH]; simpl; [now rewrite Hc|].
  now destruct (isWhiteSpace a).
Qed.

(** Trimming the end does not reach past a character that is not white
    space. *)
Lemma trimEnd_app_keep (a q : jsstr) (c : code_unit) :
  isWhiteSpace c = false -> trimEnd (a ++ c :: q) = a ++ c :: trimEnd q.
Proof.
  intros Hc. unfold trimEnd. rewrite rev_app_distr. cbn [rev].
  rewrite <- app_assoc. cbn [app]. rewrite trimStart_app_keep by assumption.
  rewrite rev_app_distr. cbn [rev]. rewrite rev_involutive, <- app_assoc.
  reflexivity.
Qed.

Lemma trim_no_trailing_whitespace (s : jsstr) : ends_with_whitespace (trim s) = false.
Proof.
  unfold trim, trimEnd, ends_with_whitespace. rewrite rev_involutive.
  generalize (rev (trimStart s)). intros r.
  induction r as [|a r IH]; simpl; [reflexivity|].
  destruct (isWhiteSpace a) eqn:Ha; [exact IH | simpl; exact Ha].
Qed.

(** An entry line always has a value: the text between its first and its
    second ['=']. *)
Lemma entry_value (line : jsstr) :
  startsWith line ENV_PREFIX = true ->
  exists v, nth_error (split line (js "=")) 1 = Some v.
Proof.
  intros H. apply startsWith_iff in H as [t ->].
  unfold split. change (ENV_PREFIX ++ t) with (ENV_KEY ++ 61%N :: t).
  change (js "=") with [61%N].
  rewrite split_go_unit_skip by (vm_compute; intuition discriminate).
  rewrite split_go_unit_cons, N.eqb_refl.
  match goal with |- context [split_go ?sep t 0 ?cur] =>
    destruct (split_go sep t 0 cur) as [|v rest] eqn:Ht
  end.
  - now apply split_go_nonempty in Ht.
  - exists v. reflexivity.
Qed.

Lemma entry_value_cut (p q : jsstr) :
  ~ In 61%N p ->
  nth_error (split (ENV_PREFIX ++ p ++ 61%N :: q) (js "=")) 1 = Some p.
Proof.
  intros Hp. unfold split.
  change (ENV_PREFIX ++ p ++ 61%N :: q) with (ENV_KEY ++ 61%N :: p ++ 61%N :: q).
  change (js "=") with [61%N].
  rewrite split_go_unit_skip by (vm_compute; intuition discriminate).
  rewrite split_go_unit_cons, N.eqb_refl.
  rewrite split_go_unit_skip by assumption.
  rewrite split_go_unit_cons, N.eqb_refl. simpl.
  now rewrite app_nil_r, rev_involutive.
Qed.

(** The lines [setEnvProxy] keeps are passed over by the reader, when no
    line is an indented entry. *)
Lemma kept_lines_skipped (ls : list jsstr) :
  Forall (fun l => indented_entry l = false) ls ->
  Forall (fun l => startsWith (trim l) ENV_PREFIX = false)
         (filter (fun line => negb (startsWith line ENV_PREFIX)) ls).
Proof.
  rewrite !Forall_forall. intros Htidy l Hl.
  apply filter_In in Hl as [Hin Hkept]. specialize (Htidy l Hin).
  unfold indented_entry in Htidy. apply negb_true_iff in Hkept.
  rewrite Hkept in Htidy. simpl in Htidy. now rewrite andb_true_r in Htidy.
Qed.

(** What the reader finds in the lines [setEnvProxy] wrote. *)
Lemma find_env_line_updated (ls : list jsstr) (p : jsstr) :
  Forall (fun l => indented_entry l = false) ls ->
  ~ In 61%N p -> ends_with_whitespace p = false ->
  find_env_line (updated_env_lines ls p) = Some p.
Proof.
  intros Htidy Heq Hws. unfold updated_env_lines.
  rewrite find_env_line_skip by now apply kept_lines_skipped.
  cbn [find_env_line]. rewrite trim_env_line by assumption.
  rewrite startsWith_app. now apply env_prefix_split.
Qed.

End MoreStrings.

Section MoreEnvFile.

Variable e : env.

Lemma find_env_line_None (ls : list jsstr) :
  find_env_line ls = None <->
  Forall (fun l => startsWith (trim l) ENV_PREFIX = false) ls.
Proof.
  induction ls as [|l ls IH]; cbn [find_env_line]; cbv zeta.
  - split; [constructor | reflexivity].
  - destruct (startsWith (trim l) ENV_PREFIX) eqn:Hl.
    + split.
      * destruct (entry_value _ Hl) as [v Hv]. rewrite Hv. discriminate.
      * intros H. inversion H; subst. congruence.
    + rewrite IH. split; [now constructor | intros H; now inversion H].
Qed.





End MoreEnvFile.



(* ================================================================== *)
(** * 15. More on checking and fetching *)
(* ================================================================== *)

Section Protocol.

Lemma hd_split_go (sep s cur : jsstr) :
  hd [] (split_go sep s 0 cur) = rev cur ++ before sep s.
Proof.
  revert cur; induction s as [|c s IH]; intros cur.
  - simpl. now rewrite app_nil_r.
  - cbn [split_go before]. destruct (startsWith (c :: s) sep).
    + simpl. now rewrite app_nil_r.
    + rewrite IH. simpl. now rewrite <- app_assoc.
Qed.

(** The first piece of a split is the text before the separator. *)
Lemma hd_split (s sep : jsstr) : hd [] (split s sep) = before sep s.
Proof. unfold split. now rewrite hd_split_go. Qed.

Lemma before_cons_inv (sep s r : jsstr) (x : code_unit) :
  before sep s = x :: r -> exists s', s = x :: s' /\ before sep s' = r.
Proof.
  destruct s as [|c s]; [discriminate|]. cbn [before].
  destruct (startsWith (c :: s) sep); [discriminate|].
  intros [= -> <-]. now exists s.
Qed.

Lemma before_nil_inv (sep s : jsstr) :
  before sep s = [] -> s = [] \/ startsWith s sep = true.
Proof.
  destruct s as [|c s]; [now left|]. cbn [before].
  destruct (startsWith (c :: s) sep); [now right | discriminate].
Qed.

(** The protocol read off a proxy URL is [https] exactly for the URL
    [https] itself and for the URLs that begin with [https://]. *)
Lemma https_protocol (p : jsstr) :
  agent_class_of p = HttpsProxyAgent <->
  p = js "https" \/ startsWith p (js "https://") = true.
Proof.
  unfold agent_class_of. rewrite hd_split.
  destruct (jsstr_eqb (before (js "://") p) (js "https")) eqn:Hb.
  - split; [intros _ | reflexivity].
    apply jsstr_eqb_eq in Hb.
    change (js "https") with [104; 116; 116; 112; 115]%N in Hb.
    apply before_cons_inv in Hb as (s1 & -> & Hb).
    apply before_cons_inv in Hb as (s2 & -> & Hb).
    apply before_cons_inv in Hb as (s3 & -> & Hb).
    apply before_cons_inv in Hb as (s4 & -> & Hb).
    apply before_cons_inv in Hb as (s5 & -> & Hb).
    apply before_nil_inv in Hb as [->|Hb]; [now left | right].
    apply startsWith_iff in Hb as [t ->]. apply startsWith_iff. now exists t.
  - split; [discriminate|]. intros [->|H]; exfalso.
    + vm_compute in Hb. discriminate.
    + apply startsWith_iff in H as [t ->].
      change (js "https://" ++ t)
        with (104 :: 116 :: 116 :: 112 :: 115 :: 58 :: 47 :: 47 :: t)%N in Hb.
      change (js "://") with [58; 47; 47]%N in Hb.
      cbn in Hb. rewrite startsWith_nil in Hb. cbn in Hb. discriminate.
Qed.

End Protocol.

Section MoreValidation.

Variable e : env.

(** X6: when the agents can be built, [validateSingleProxy] sends exactly
    one request, to the test URL, through an agent built for the proxy URL
    itself; the agent is an [HttpsProxyAgent] exactly when the URL is
    [https] or begins with [https://], and an [HttpProxyAgent] otherwise
    (also for a URL without any scheme). *)
Theorem validateSingleProxy_agent (p : jsstr) (w : world) :
  (forall k, agent_error e k p = None) ->
  exists k,
    requests (snd (run e (validateSingleProxy p) w))
    = requests w ++ [{| req_url := TEST_URL; req_timeout := 5000;
                        req_agent := Some {| agent_class := k; agent_proxy := p |} |}] /\
    (k = HttpsProxyAgent <-> p = js "https" \/ startsWith p (js "https://") = true).
Proof.
  intros Hbuilt. exists (agent_class_of p).
  rewrite run_validateSingleProxy. unfold probed. rewrite Hbuilt.
  split; [reflexivity | apply https_protocol].
Qed.

(** X7: when the agent for the proxy URL cannot be built (the constructor
    throws), [validateSingleProxy] returns [false] without sending any
    request and without any other effect. *)
Theorem validateSingleProxy_bad_url (p : jsstr) (w : world) :
  (forall k, agent_error e k p <> None) ->
  run e (validateSingleProxy p) w = (Returned false, w).
Proof.
  intros Hbad. rewrite run_validateSingleProxy. unfold valid_at, probed.
  destruct (agent_error e (agent_class_of p) p) eqn:Ha; [reflexivity|].
  now apply Hbad in Ha.
Qed.

End MoreValidation.

Lemma validateSingleProxy_agent_witness :
  requests (snd (run scenario (validateSingleProxy (js "https://9.9.9.9:443")) fresh))
  = [{| req_url := TEST_URL; req_timeout := 5000;
        req_agent := Some {| agent_class := HttpsProxyAgent;
                             agent_proxy := js "https://9.9.9.9:443" |} |}].
Proof.
  destruct (validateSingleProxy_agent scenario (js "https://9.9.9.9:443") fresh)
    as (k & Hreq & Hk); [reflexivity|].
  rewrite Hreq. destruct Hk as [_ Hk]. rewrite Hk; [reflexivity|].
  right. reflexivity.
Defined.

Lemma validateSingleProxy_bad_url_witness :
  run {| axios := fun _ _ => ok_response (VOther true);
         random := fun _ => 0%N;
         agent_error := fun _ _ => Some {| message := js "Invalid URL" |} |}
      (validateSingleProxy (js "not a url")) fresh
  = (Returned false, fresh).
Proof. apply validateSingleProxy_bad_url. discriminate. Defined.

Section MoreFetch.

Variable e : env.

Lemma includes_http (line : jsstr) : includes (js "http://" ++ line) (js "://") = true.
Proof.
  change (js "http://" ++ line) with (104 :: 116 :: 116 :: 112 :: 58 :: 47 :: 47 :: line)%N.
  change (js "://") with [58; 47; 47]%N.
  cbn. now rewrite startsWith_nil.
Qed.

Lemma normalize_idem (line : jsstr) : normalize (normalize line) = normalize line.
Proof.
  unfold normalize. destruct (includes line (js "://")) eqn:H.
  - now rewrite H.
  - now rewrite includes_http.
Qed.

Lemma set_add_present (acc : list jsstr) (x : jsstr) :
  In x acc -> set_add acc x = acc.
Proof. intros H. unfold set_add. now destruct (in_dec jsstr_eq_dec x acc). Qed.

Lemma fold_set_add_fresh (xs acc : list jsstr) :
  NoDup (acc ++ xs) -> fold_left set_add xs acc = acc ++ xs.
Proof.
  revert acc; induction xs as [|x xs IH]; intros acc H; simpl.
  - now rewrite app_nil_r.
  - assert (Hx : ~ In x acc).
    { apply NoDup_remove_2 in H. intros Hin. apply H, in_or_app. now left. }
    unfold set_add at 2. destruct (in_dec jsstr_eq_dec x acc); [contradiction|].
    rewrite IH; rewrite <- app_assoc; [reflexivity | exact H].
Qed.

Lemma add_lines_map (lines acc : list jsstr) :
  fold_left add_line lines acc = fold_left set_add (map normalize lines) acc.
Proof.
  revert acc; induction lines as [|l lines IH]; intros acc; simpl; [reflexivity|].
  now rewrite IH, add_line_normalize.
Qed.

Lemma fetched_endpoint_facts (t : nat) (srcs : list jsstr) (x : jsstr) :
  In x (fold_left add_line (yields e t srcs) []) ->
  x <> [] /\ includes x (js "://") = true /\
  ~ In 10%N x /\ ends_with_whitespace x = false.
Proof.
  intros Hx. pose proof (fetched_no_newline e _ _ _ Hx) as Hnl.
  apply In_add_lines in Hx as [[]|(line & Hline & ->)].
  apply In_yields in Hline as (i & src & _ & Hline).
  apply In_source_yield in Hline as (resp & body & raw & _ & _ & _ & _ & Hl & Hne).
  assert (Hws : ends_with_whitespace line = false)
    by (rewrite Hl; apply trim_no_trailing_whitespace).
  unfold normalize in *. destruct (includes line (js "://")) eqn:Hinc.
  - repeat split; assumption.
  - split; [discriminate|]. split; [apply includes_http|]. split; [assumption|].
    now rewrite ends_with_whitespace_app.
Qed.

(** X8: every endpoint [fetchGitHubProxies] returns is non-empty, holds
    ["://"], holds no newline and does not end in white space. *)
Theorem fetched_endpoints_wellformed (w : world) :
  exists result w',
    run e fetchGitHubProxies w = (Returned result, w') /\
    Forall (fun x => x <> [] /\ includes x (js "://") = true /\
                     ~ In 10%N x /\ ends_with_whitespace x = false) result.
Proof.
  destruct (run_fetchGitHubProxies e w) as (w' & Hrun & _).
  eexists. exists w'. split; [exact Hrun|].
  apply Forall_forall. intros x Hx. eapply fetched_endpoint_facts. exact Hx.
Qed.

(** X9: whatever becomes of the first request, the second source is asked
    too: [fetchGitHubProxies] sends exactly two requests, to the two
    sources in order, each with a timeout of 15000 ms and no proxy agent,
    and it touches no file. *)
Theorem fetchGitHubProxies_requests (w : world) :
  exists result w',
    run e fetchGitHubProxies w = (Returned result, w') /\
    requests w' = requests w ++
      [{| req_url := source 0; req_timeout := 15000; req_agent := None |};
       {| req_url := source 1; req_timeout := 15000; req_agent := None |}] /\
    files w' = files w /\ writes w' = writes w.
Proof.
  destruct (run_fetchGitHubProxies e w) as (w' & Hrun & (Hf & Hw & _) & _ & Hrq).
  eexists. exists w'. split; [exact Hrun|]. split; [exact Hrq|]. now split.
Qed.

(** X10: a bare [host:port] line and the same line spelled with [http://]
    are one endpoint: adding the second after the first changes nothing. *)
Theorem add_line_same_endpoint (acc : list jsstr) (line : jsstr) :
  includes line (js "://") = false ->
  add_line (add_line acc line) (js "http://" ++ line) = add_line acc line.
Proof.
  intros H. rewrite !add_line_normalize.
  assert (Hn : normalize line = js "http://" ++ line)
    by (unfold normalize; now rewrite H).
  rewrite <- Hn, normalize_idem.
  apply set_add_present, In_set_add. now right.
Qed.

(** X11: the result keeps the order of the lines: when the candidate lines
    of the two sources stand for pairwise different endpoints, the result is
    the list of these endpoints in the order of the lines, first source
    first. *)
Theorem fetchGitHubProxies_order (w : world) :
  NoDup (map normalize (yields e (clock w) GITHUB_SOURCES)) ->
  fst (run e fetchGitHubProxies w)
  = Returned (map normalize
                (source_yield (axios e (clock w) (source_request (source 0)))
                 ++ source_yield (axios e (S (clock w)) (source_request (source 1))))).
Proof.
  intros Hnodup.
  destruct (run_fetchGitHubProxies e w) as (w' & Hrun & _).
  rewrite Hrun. cbn [fst]. f_equal.
  rewrite add_lines_map, fold_set_add_fresh by exact Hnodup.
  cbn [GITHUB_SOURCES yields app]. now rewrite app_nil_r.
Qed.

End MoreFetch.

Lemma add_line_same_endpoint_witness :
  add_line (add_line [] (js "1.2.3.4:8080")) (js "http://1.2.3.4:8080")
  = [js "http://1.2.3.4:8080"].
Proof.
  exact (add_line_same_endpoint [] (js "1.2.3.4:8080") eq_refl).
Defined.

Lemma fetchGitHubProxies_order_witness :
  fst (run scenario fetchGitHubProxies fresh)
  = Returned [js "http://1.2.3.4:8080"; js "http://5.6.7.8:3128"; js "https://9.9.9.9:443"].
Proof.
  rewrite (fetchGitHubProxies_order scenario fresh).
  - reflexivity.
  - vm_compute. repeat constructor; simpl; intuition discriminate.
Defined.

(* ================================================================== *)
(** * 16. More on the refresh and the check cycle *)
(* ================================================================== *)

Section MoreRefresh.

Variable e : env.

#[local] Arguments Nat.leb : simpl never.
#[local] Arguments Nat.max : simpl never.







End MoreRefresh.


(* ================================================================== *)
(** * 17. The random pick *)
(* ================================================================== *)

Section MoreLoop.

Variable e : env.

(** X19: [valid[Math.floor(Math.random() * valid.length)]] is always an
    element of a non-empty array (of fewer than 2^53 elements), with the
    product rounded as IEEE doubles are: the index never reaches the
    length. *)
Theorem random_pick_defined (k : N) (valid : list jsstr) :
  valid <> [] -> (N.of_nat (List.length valid) < 2 ^ 53)%N ->
  exists chosen,
    nth_error valid (floor_mul (k mod 2 ^ 53)%N (List.length valid)) = Some chosen /\
    In chosen valid.
Proof.
  intros Hne Hlen.
  assert (Hidx : floor_mul (k mod 2 ^ 53)%N (List.length valid) < List.length valid).
  { apply floor_mul_lt; [apply N.mod_lt; discriminate | | exact Hlen].
    destruct valid; [contradiction | simpl; lia]. }
  destruct (nth_error valid _) as [c|] eqn:Hnth.
  - exists c. split; [reflexivity|]. eapply nth_error_In. exact Hnth.
  - apply nth_error_None in Hnth. lia.
Qed.

End MoreLoop.

Lemma random_pick_defined_witness :
  exists chosen,
    nth_error [js "a"; js "b"; js "c"]
      (floor_mul ((2 ^ 53 - 1) mod 2 ^ 53)%N 3) = Some chosen /\
    In chosen [js "a"; js "b"; js "c"].
Proof.
  apply (random_pick_defined (2 ^ 53 - 1) [js "a"; js "b"; js "c"]).
  - discriminate.
  - reflexivity.
Defined.


(* ================================================================== *)
(** * 18. The store as Node has it *)
(* ================================================================== *)

Section WellFormed.

Lemma toWellFormed_plain (c : code_unit) (s : jsstr) :
  is_surrogate c = false -> toWellFormed (c :: s) = c :: toWellFormed s.
Proof.
  unfold is_surrogate. intros H. apply orb_false_iff in H as [Hh Hl].
  simpl. now rewrite Hh, Hl.
Qed.

Lemma low_not_high (c : code_unit) : is_low_surrogate c = true -> is_high_surrogate c = false.
Proof.
  unfold is_low_surrogate, is_high_surrogate. intros H.
  apply andb_true_iff in H as [H1 H2]. apply N.leb_le in H1.
  apply andb_false_iff. right. apply N.leb_gt. lia.
Qed.

Lemma replacement_plain : is_surrogate REPLACEMENT = false.
Proof. reflexivity. Qed.

(** Strong induction on strings, two code units at a time. *)
Lemma jsstr_ind2 (P : jsstr -> Prop) :
  P [] -> (forall c, P [c]) ->
  (forall c d s, P s -> P (d :: s) -> P (c :: d :: s)) ->
  forall s, P s.
Proof.
  intros Hnil Hone Hstep s.
  assert (H : P s /\ forall c, P (c :: s)).
  { induction s as [|d s [IH1 IH2]]; [now split|].
    split; [apply IH2|]. intros c. apply Hstep; [exact IH1 | apply IH2]. }
  apply H.
Qed.

Lemma toWellFormed_cons2 (c d : code_unit) (s : jsstr) :
  toWellFormed (c :: d :: s) =
  if is_high_surrogate c then
    if is_low_surrogate d then c :: d :: toWellFormed s
    else REPLACEMENT :: toWellFormed (d :: s)
  else if is_low_surrogate c then REPLACEMENT :: toWellFormed (d :: s)
  else c :: toWellFormed (d :: s).
Proof. reflexivity. Qed.

Lemma toWellFormed_one (c : code_unit) :
  toWellFormed [c] = [if is_surrogate c then REPLACEMENT else c].
Proof.
  unfold is_surrogate. simpl. destruct (is_high_surrogate c); [reflexivity|].
  now destruct (is_low_surrogate c).
Qed.

Lemma length_toWellFormed (s : jsstr) : List.length (toWellFormed s) = List.length s.
Proof.
  induction s as [|c|c d s IH1 IH2] using jsstr_ind2.
  - reflexivity.
  - now rewrite toWellFormed_one.
  - rewrite toWellFormed_cons2.
    destruct (is_high_surrogate c); [destruct (is_low_surrogate d)|
                                     destruct (is_low_surrogate c)];
      cbn [List.length]; rewrite ?IH1, ?IH2; reflexivity.
Qed.

(** Making a string well-formed leaves a well-formed string. *)
Lemma toWellFormed_idem (s : jsstr) : well_formed (toWellFormed s).
Proof.
  unfold well_formed.
  induction s as [|c|c d s IH1 IH2] using jsstr_ind2.
  - reflexivity.
  - rewrite toWellFormed_one. destruct (is_surrogate c) eqn:Hc.
    + reflexivity.
    + now rewrite toWellFormed_one, Hc.
  - rewrite toWellFormed_cons2.
    destruct (is_high_surrogate c) eqn:Hh.
    + destruct (is_low_surrogate d) eqn:Hl.
      * now rewrite toWellFormed_cons2, Hh, Hl, IH1.
      * rewrite toWellFormed_plain by apply replacement_plain. now rewrite IH2.
    + destruct (is_low_surrogate c) eqn:Hl.
      * rewrite toWellFormed_plain by apply replacement_plain. now rewrite IH2.
      * rewrite toWellFormed_plain by (unfold is_surrogate; now rewrite Hh, Hl).
        now rewrite IH2.
Qed.

(** A code unit that is no surrogate separates what is before it from what
    is after it. *)
Lemma toWellFormed_app (a b : jsstr) (c : code_unit) :
  is_surrogate c = false ->
  toWellFormed (a ++ c :: b) = toWellFormed a ++ c :: toWellFormed b.
Proof.
  intros Hc. pose proof Hc as Hc'. unfold is_surrogate in Hc'.
  apply orb_false_iff in Hc' as [_ Hcl].
  induction a as [|x|x d a IH1 IH2] using jsstr_ind2.
  - now apply toWellFormed_plain.
  - change ([x] ++ c :: b) with (x :: c :: b).
    rewrite toWellFormed_cons2, toWellFormed_one, Hcl.
    rewrite (toWellFormed_plain c) by assumption.
    unfold is_surrogate.
    destruct (is_high_surrogate x); [reflexivity|].
    now destruct (is_low_surrogate x).
  - change ((x :: d :: a) ++ c :: b) with (x :: d :: (a ++ c :: b)).
    change ((d :: a) ++ c :: b) with (d :: (a ++ c :: b)) in IH2.
    rewrite !toWellFormed_cons2.
    destruct (is_high_surrogate x).
    + destruct (is_low_surrogate d).
      * now rewrite IH1.
      * now rewrite IH2.
    + destruct (is_low_surrogate x); now rewrite IH2.
Qed.

Lemma app_eq_length {X : Type} (x x' y y' : list X) :
  List.length x = List.length x' -> x ++ y = x' ++ y' -> x = x' /\ y = y'.
Proof.
  revert x'; induction x as [|a x IH]; intros [|a' x'] Hlen H; simpl in *;
    try discriminate.
  - now split.
  - injection H as -> H. destruct (IH x') as [-> ->]; [lia | assumption | now split].
Qed.

Lemma well_formed_app (a b : jsstr) (c : code_unit) :
  is_surrogate c = false ->
  (well_formed (a ++ c :: b) <-> well_formed a /\ well_formed b).
Proof.
  intros Hc. unfold well_formed. rewrite toWellFormed_app by assumption. split.
  - intros H. apply app_eq_length in H as [Ha Hb]; [|apply length_toWellFormed].
    split; [exact Ha | now injection Hb].
  - intros [-> ->]. reflexivity.
Qed.

Lemma well_formed_nil : well_formed [].
Proof. reflexivity. Qed.

Lemma well_formed_split_go (c : code_unit) (s cur : jsstr) :
  is_surrogate c = false ->
  well_formed (rev cur ++ s) ->
  Forall well_formed (split_go [c] s 0 cur).
Proof.
  intros Hc. revert cur; induction s as [|x s IH]; intros cur H.
  - simpl. rewrite app_nil_r in H. now repeat constructor.
  - rewrite split_go_unit_cons. destruct (N.eqb_spec c x) as [->|Hx].
    + apply well_formed_app in H as [Hcur Hs]; [|assumption].
      constructor; [exact Hcur | now apply IH].
    + apply IH. simpl. now rewrite <- app_assoc.
Qed.

(** The pieces of a well-formed text, cut at a code unit that is no
    surrogate, are well-formed; and so is what [join] makes of well-formed
    pieces. *)
Lemma well_formed_split (c : code_unit) (s : jsstr) :
  is_surrogate c = false -> well_formed s -> Forall well_formed (split s [c]).
Proof. intros Hc H. now apply well_formed_split_go. Qed.

Lemma well_formed_join (c : code_unit) (pieces : list jsstr) :
  is_surrogate c = false -> Forall well_formed pieces -> well_formed (join pieces [c]).
Proof.
  intros Hc. induction 1 as [|p rest Hp Hrest IH]; [reflexivity|].
  destruct rest as [|q rest]; [exact Hp|].
  change (join (p :: q :: rest) [c]) with (p ++ c :: join (q :: rest) [c]).
  apply well_formed_app; [assumption | now split].
Qed.

Lemma well_formed_entry (p : jsstr) : well_formed p -> well_formed (ENV_PREFIX ++ p).
Proof.
  intros Hp. change (ENV_PREFIX ++ p) with (ENV_KEY ++ 61%N :: p).
  apply well_formed_app; [reflexivity|]. split; [reflexivity | exact Hp].
Qed.

Lemma well_formed_updated (ls : list jsstr) (p : jsstr) :
  Forall well_formed ls -> well_formed p ->
  Forall well_formed (updated_env_lines ls p).
Proof.
  intros Hls Hp. unfold updated_env_lines. apply Forall_app. split.
  - rewrite Forall_forall in *. intros l Hl. apply filter_In in Hl. now apply Hls.
  - constructor; [now apply well_formed_entry | constructor].
Qed.

End WellFormed.

Section RunIO.

Variable e : env_io.

Lemma run_io_bind {A B : Type} (p : prog A) (f : A -> prog B) (w : world_io) :
  run_io e (bind p f) w = then_run_io (run_io e p w) (fun a w' => run_io e (f a) w').
Proof.
  revert w; induction p as [a|err|X o k IH|r k IH]; intros w; simpl; auto.
  destruct (handle_io e o w) as [x w']. apply IH.
Qed.

(** A program that makes no call of [fs] runs on the real store as it runs
    on the available one. *)
Lemma run_io_fs_free {A : Type} (p : prog A) (w : world_io) :
  fs_free p -> run_io e p w = on_disk (run (net e) p (store w)) w.
Proof.
  unfold on_disk. revert w; induction p as [a|err|X o k IH|r k IH]; intros w Hp.
  - destruct w; reflexivity.
  - destruct w; reflexivity.
  - destruct Hp as [Ho Hk]. cbn [run_io run].
    assert (Hh : handle_io e o w
                 = (fst (handle (net e) o (store w)),
                    with_store (snd (handle (net e) o (store w))) w)).
    { destruct o; try discriminate; reflexivity. }
    rewrite Hh. destruct (handle (net e) o (store w)) as [x s'] eqn:Hs.
    cbn [fst snd]. rewrite IH by apply Hk. reflexivity.
  - cbn [run_io run]. rewrite IH by apply Hp. reflexivity.
Qed.

Lemma fs_free_bind {A B : Type} (p : prog A) (f : A -> prog B) :
  fs_free p -> (forall a, fs_free (f a)) -> fs_free (bind p f).
Proof.
  intros Hp Hf. induction p as [a|err|X o k IH|r k IH]; simpl in *; auto.
  all: try (destruct Hp as [Ho Hk]; split; [exact Ho|]; intros x; now apply IH).
Qed.

Lemma fs_free_try_catch {A : Type} (p : prog A) (h : js_error -> prog A) :
  fs_free p -> (forall err, fs_free (h err)) -> fs_free (try_catch p h).
Proof.
  intros Hp Hh. induction p as [a|err|X o k IH|r k IH]; simpl in *; auto.
  all: try (destruct Hp as [Ho Hk]; split; [exact Ho|]; intros x; now apply IH).
Qed.

Lemma fs_free_validateSingleProxy (p : jsstr) : fs_free (validateSingleProxy p).
Proof.
  unfold validateSingleProxy. apply fs_free_try_catch; [|intros; exact I].
  apply fs_free_bind.
  - destruct (jsstr_eqb _ _); simpl; (split; [reflexivity|]); intros [err|a]; exact I.
  - intros a. simpl. intros [resp|err]; simpl; [|exact I].
    now destruct (status resp =? 200)%Z.
Qed.

Lemma fs_free_validate_loop (l valid : list jsstr) : fs_free (validate_loop l valid).
Proof.
  revert valid; induction l as [|p rest IH]; intros valid; [exact I|].
  cbn [validate_loop]. destruct (100 <=? List.length valid); [exact I|].
  apply fs_free_bind; [apply fs_free_validateSingleProxy|].
  intros [|]; (apply fs_free_bind; [simpl; split; [reflexivity | intros; exact I]|]);
    intros _; apply IH.
Qed.

Lemma fs_free_validateProxies (l : list jsstr) : fs_free (validateProxies l).
Proof.
  unfold validateProxies.
  apply fs_free_bind; [simpl; split; [reflexivity | intros; exact I]|]. intros _.
  apply fs_free_bind; [apply fs_free_validate_loop|]. intros valid.
  apply fs_free_bind; [simpl; split; [reflexivity | intros; exact I]|]. intros _.
  exact I.
Qed.

Lemma fs_free_fetch_source (src : jsstr) (acc : list jsstr) : fs_free (fetch_source src acc).
Proof.
  unfold fetch_source. apply fs_free_try_catch.
  - apply fs_free_bind; [simpl; split; [reflexivity | intros; exact I]|]. intros _.
    apply fs_free_bind; [simpl; intros [resp|err]; exact I|]. intros resp.
    destruct (_ && _); [|exact I].
    apply fs_free_bind; [destruct (data resp); exact I|]. intros pieces. exact I.
  - intros err. apply fs_free_bind; [simpl; split; [reflexivity | intros; exact I]|].
    intros _. exact I.
Qed.

Lemma fs_free_fetch_sources (srcs : list jsstr) (acc : list jsstr) :
  fs_free (fetch_sources srcs acc).
Proof.
  revert acc; induction srcs as [|src srcs IH]; intros acc; [exact I|].
  cbn [fetch_sources]. apply fs_free_bind; [apply fs_free_fetch_source|].
  intros acc'. apply IH.
Qed.

Lemma fs_free_fetchGitHubProxies : fs_free fetchGitHubProxies.
Proof.
  unfold fetchGitHubProxies.
  apply fs_free_bind; [simpl; split; [reflexivity | intros; exact I]|]. intros _.
  apply fs_free_bind; [apply fs_free_fetch_sources|]. intros result.
  apply fs_free_bind; [simpl; split; [reflexivity | intros; exact I]|]. intros _.
  exact I.
Qed.

End RunIO.

Section EnvFileIO.

Variable e : env_io.

Lemma lines_read_no_newline (w : world_io) : Forall (fun q => ~ In 10%N q) (lines_read w).
Proof.
  unfold lines_read. destruct (files (store w) ENV_PATH); [|constructor].
  apply split_unit_pieces.
Qed.

Lemma lines_read_well_formed (w : world_io) : Forall well_formed (lines_read w).
Proof.
  unfold lines_read. destruct (files (store w) ENV_PATH); [|constructor].
  apply well_formed_split; [reflexivity | apply toWellFormed_idem].
Qed.

(** [getCurrentProxyFromEnv] when the system reports no failure and [.env]
    is not a directory. *)
Lemma run_io_getCurrentProxyFromEnv (w : world_io) :
  calm e -> is_directory w ENV_PATH = false ->
  exists w',
    run_io e getCurrentProxyFromEnv w = (Returned (find_env_line (lines_read w)), w') /\
    store w' = store w /\ is_dir w' = is_dir w.
Proof.
  intros Hcalm Hdir. unfold getCurrentProxyFromEnv, lines_read, is_directory in *.
  cbn [bind existsSync perform run_io handle_io]. unfold exists_io. rewrite Hcalm.
  destruct (files (store w) ENV_PATH) as [content|] eqn:Hfile; cbn [is_some negb].
  - cbn [bind readFileSync perform_throwing run_io handle_io]. unfold read_io.
    rewrite Hcalm. cbn [fs_tick store is_dir]. rewrite Hfile.
    simpl in Hdir. rewrite Hdir. eexists. split; [reflexivity|]. now split.
  - eexists. split; [reflexivity|]. now split.
Qed.

(** [setEnvProxy] when the system reports no failure and [.env] is not a
    directory: the lines read, less the old entries, plus the new entry are
    written. *)
Lemma run_io_setEnvProxy (p : jsstr) (w : world_io) :
  calm e -> is_directory w ENV_PATH = false ->
  exists w',
    run_io e (setEnvProxy p) w = (Returned tt, w') /\
    files (store w') ENV_PATH
    = Some (toWellFormed (join (updated_env_lines (lines_read w) p) NL)) /\
    is_dir w' ENV_PATH = false /\
    writes (store w')
    = writes (store w) ++ [(ENV_PATH, join (updated_env_lines (lines_read w) p) NL)].
Proof.
  intros Hcalm Hdir. unfold setEnvProxy, lines_read.
  cbn [bind existsSync perform run_io handle_io]. unfold exists_io. rewrite Hcalm.
  unfold is_directory in Hdir.
  destruct (files (store w) ENV_PATH) as [content|] eqn:Hfile; cbn [is_some].
  - cbn [bind readFileSync perform_throwing run_io handle_io]. unfold read_io.
    rewrite Hcalm. cbn [fs_tick store is_dir]. rewrite Hfile.
    simpl in Hdir. rewrite Hdir.
    cbn [bind writeFileSync perform_throwing run_io handle_io]. unfold write_io.
    cbn [parent]. unfold is_directory. cbn [fs_tick store is_dir fs_clock].
    rewrite Hfile, Hcalm. simpl is_some. rewrite Hdir. cbn [andb].
    eexists. split; [reflexivity|]. repeat split.
  - cbn [bind writeFileSync perform_throwing run_io handle_io]. unfold write_io.
    cbn [parent]. unfold is_directory. cbn [fs_tick store is_dir fs_clock].
    rewrite Hfile, Hcalm. cbn [is_some andb].
    eexists. split; [reflexivity|]. repeat split.
Qed.

(** After a write of well-formed lines, the lines read are the lines
    written. *)
Lemma lines_read_written (ls : list jsstr) (w : world_io) :
  ls <> [] -> Forall (fun q => ~ In 10%N q) ls -> Forall well_formed ls ->
  files (store w) ENV_PATH = Some (toWellFormed (join ls NL)) ->
  lines_read w = ls.
Proof.
  intros Hne Hnl Hwf Hfile. unfold lines_read. rewrite Hfile.
  rewrite (toWellFormed_idem (join ls NL)).
  assert (Hj : well_formed (join ls NL)) by (apply well_formed_join; [reflexivity | exact Hwf]).
  rewrite Hj. now apply split_join.
Qed.

Lemma updated_nonempty (ls : list jsstr) (p : jsstr) : updated_env_lines ls p <> [].
Proof. unfold updated_env_lines. intros H. now apply app_eq_nil in H as [_ H]. Qed.

(** The lines of [.env] after [setEnvProxy], as the next read sees them. *)
Lemma lines_read_after_set (p : jsstr) (w w' : world_io) :
  ~ In 10%N p -> well_formed p ->
  files (store w') ENV_PATH
  = Some (toWellFormed (join (updated_env_lines (lines_read w) p) NL)) ->
  lines_read w' = updated_env_lines (lines_read w) p.
Proof.
  intros Hnl Hwf Hfile. apply lines_read_written; try assumption.
  - apply updated_nonempty.
  - apply updated_env_lines_no_newline; [apply lines_read_no_newline | exact Hnl].
  - apply well_formed_updated; [apply lines_read_well_formed | exact Hwf].
Qed.

(** C9 (as amended): when the file operations succeed (the system reports
    no failure and [.env] is not a directory), for a non-empty, well-formed
    proxy string [p] (no surrogate without its partner) with no newline, no
    ['='] and no white space at its end, and an [.env] (absent or present)
    whose old entries all start their line, [setEnvProxy(p)] followed by
    [getCurrentProxyFromEnv()] returns [p].  Nothing is said of an [.env]
    with an indented old entry: there the writer does not remove what its
    docstring says it removes ([setEnvProxy_keeps_indented_entry]). *)
Theorem env_round_trip (p : jsstr) (w : world_io) :
  calm e -> is_directory w ENV_PATH = false ->
  p <> [] ->
  ~ In 10%N p ->
  ~ In 61%N p ->
  ends_with_whitespace p = false ->
  well_formed p ->
  Forall (fun l => indented_entry l = false) (lines_read w) ->
  fst (run_io e (setEnvProxy p;; getCurrentProxyFromEnv) w) = Returned (Some p).
Proof.
  intros Hcalm Hdir _ Hnl Heq Hws Hwf Htidy.
  destruct (run_io_setEnvProxy p w Hcalm Hdir) as (w1 & Hset & Hfile & Hkind & _).
  rewrite run_io_bind, Hset. unfold then_run_io.
  destruct (run_io_getCurrentProxyFromEnv w1 Hcalm) as (w2 & Hget & _).
  { unfold is_directory. rewrite Hkind. apply andb_false_r. }
  rewrite Hget. cbn [fst]. f_equal.
  rewrite (lines_read_after_set p w w1 Hnl Hwf Hfile).
  now apply find_env_line_updated.
Qed.

(** X3: a value is read back only up to its first ['=']: when the file
    operations succeed, after [setEnvProxy(p + '=' + q)], with [p] and [q]
    well-formed, no ['='] in [p], no newline in either and no indented
    entry in the file, [getCurrentProxyFromEnv()] returns [p]. *)
Theorem env_round_trip_cut (p q : jsstr) (w : world_io) :
  calm e -> is_directory w ENV_PATH = false ->
  ~ In 10%N p -> ~ In 61%N p -> ~ In 10%N q ->
  well_formed p -> well_formed q ->
  Forall (fun l => indented_entry l = false) (lines_read w) ->
  fst (run_io e (setEnvProxy (p ++ 61%N :: q);; getCurrentProxyFromEnv) w)
  = Returned (Some p).
Proof.
  intros Hcalm Hdir Hnlp Heq Hnlq Hwfp Hwfq Htidy.
  assert (Hnl : ~ In 10%N (p ++ 61%N :: q)).
  { intros H. apply in_app_or in H as [H|[H|H]]; [tauto | discriminate | tauto]. }
  assert (Hwf : well_formed (p ++ 61%N :: q))
    by (apply well_formed_app; [reflexivity | now split]).
  destruct (run_io_setEnvProxy (p ++ 61%N :: q) w Hcalm Hdir)
    as (w1 & Hset & Hfile & Hkind & _).
  rewrite run_io_bind, Hset. unfold then_run_io.
  destruct (run_io_getCurrentProxyFromEnv w1 Hcalm) as (w2 & Hget & _).
  { unfold is_directory. rewrite Hkind. apply andb_false_r. }
  rewrite Hget. cbn [fst]. f_equal.
  rewrite (lines_read_after_set _ w w1 Hnl Hwf Hfile).
  unfold updated_env_lines.
  rewrite find_env_line_skip by now apply kept_lines_skipped.
  cbn [find_env_line]. unfold trim.
  change (trimStart (ENV_PREFIX ++ p ++ 61%N :: q)) with (ENV_PREFIX ++ p ++ 61%N :: q).
  rewrite app_assoc, trimEnd_app_keep by reflexivity.
  rewrite <- app_assoc, startsWith_app. now apply entry_value_cut.
Qed.

(** X2: [getCurrentProxyFromEnv] never changes anything on disk.  When
    [.env] is absent it returns [null] without reading.  When the file
    operations succeed it returns, and it returns [null] exactly when no
    line read from [.env], once trimmed, starts with [PROXY_SERVER=].  When
    [.env] is a directory it throws the error of [readFileSync]. *)
Theorem getCurrentProxyFromEnv_outcomes (w : world_io) :
  exists o w',
    run_io e getCurrentProxyFromEnv w = (o, w') /\
    store w' = store w /\ is_dir w' = is_dir w /\
    (files (store w) ENV_PATH = None -> o = Returned None) /\
    (calm e -> is_directory w ENV_PATH = false ->
     exists v, o = Returned v /\
               (v = None <->
                Forall (fun l => startsWith (trim l) ENV_PREFIX = false) (lines_read w))) /\
    (calm e -> is_directory w ENV_PATH = true -> o = Thrown EISDIR).
Proof.
  destruct (run_io e getCurrentProxyFromEnv w) as [o w'] eqn:Hrun.
  exists o, w'. split; [reflexivity|].
  assert (Hgen : store w' = store w /\ is_dir w' = is_dir w /\
                 (files (store w) ENV_PATH = None -> o = Returned None) /\
                 (calm e -> is_directory w ENV_PATH = true -> o = Thrown EISDIR)).
  { revert Hrun. unfold getCurrentProxyFromEnv, is_directory.
    cbn [bind existsSync perform run_io handle_io]. unfold exists_io.
    destruct (fs_fault e (fs_clock w) (CallExists ENV_PATH)) eqn:Hex; cbn [negb].
    - intros [= <- <-]. repeat split.
      intros Hcalm. now rewrite Hcalm in Hex.
    - destruct (files (store w) ENV_PATH) as [content|] eqn:Hfile; cbn [is_some negb].
      + cbn [bind readFileSync perform_throwing run_io handle_io]. unfold read_io.
        cbn [fs_tick store is_dir fs_clock]. rewrite Hfile.
        destruct (fs_fault e (S (fs_clock w)) (CallRead ENV_PATH)) eqn:Hrd.
        * intros [= <- <-]. repeat split; [discriminate|].
          intros Hcalm. now rewrite Hcalm in Hrd.
        * destruct (is_dir w ENV_PATH); intros [= <- <-]; repeat split;
            try discriminate.
      + intros [= <- <-]. repeat split. discriminate. }
  destruct Hgen as (Hs & Hd & Habsent & Hisdir).
  repeat (split; [assumption|]). split; [|exact Hisdir].
  intros Hcalm Hdir.
  destruct (run_io_getCurrentProxyFromEnv w Hcalm Hdir) as (w2 & Hget & _).
  rewrite Hget in Hrun. injection Hrun as <- _.
  eexists. split; [reflexivity|]. apply find_env_line_None.
Qed.

(** X1: [ensureOutputDir] writes no file and leaves [.env] and the pool
    listing alone.  When it returns, [output] exists; when it throws
    (because [mkdirSync] does), nothing on disk has changed.  When the
    system reports no failure: if [output] is absent it is a directory
    afterwards; if it is a directory already nothing changes at all; and if
    a regular file is in its place the call returns all the same and leaves
    that file there. *)
Theorem ensureOutputDir_outcomes (w : world_io) :
  exists o w',
    run_io e ensureOutputDir w = (o, w') /\
    writes (store w') = writes (store w) /\
    files (store w') ENV_PATH = files (store w) ENV_PATH /\
    files (store w') OUTPUT_FILE = files (store w) OUTPUT_FILE /\
    (o = Returned tt -> is_some (files (store w') OUTPUT_DIR) = true) /\
    (forall err, o = Thrown err -> store w' = store w /\ is_dir w' = is_dir w) /\
    (calm e -> files (store w) OUTPUT_DIR = None ->
     o = Returned tt /\ is_directory w' OUTPUT_DIR = true) /\
    (calm e -> files (store w) OUTPUT_DIR <> None ->
     o = Returned tt /\ store w' = store w /\ is_dir w' = is_dir w).
Proof.
  destruct (run_io e ensureOutputDir w) as [o w'] eqn:Hrun.
  exists o, w'. split; [reflexivity|].
  revert Hrun. unfold ensureOutputDir.
  cbn [bind existsSync perform run_io handle_io]. unfold exists_io.
  assert (Hmk : forall w0, store w0 = store w -> is_dir w0 = is_dir w ->
     forall o1 w1,
       run_io e (mkdirSync OUTPUT_DIR;; console_log CreatedDirectory) w0 = (o1, w1) ->
       writes (store w1) = writes (store w) /\
       files (store w1) ENV_PATH = files (store w) ENV_PATH /\
       files (store w1) OUTPUT_FILE = files (store w) OUTPUT_FILE /\
       (o1 = Returned tt -> is_some (files (store w1) OUTPUT_DIR) = true) /\
       (forall err, o1 = Thrown err -> store w1 = store w /\ is_dir w1 = is_dir w) /\
       (fs_fault e (fs_clock w0) (CallMkdir OUTPUT_DIR) = None ->
        files (store w) OUTPUT_DIR = None ->
        o1 = Returned tt /\ is_directory w1 OUTPUT_DIR = true)).
  { intros w0 Hs Hd o1 w1.
    cbn [bind mkdirSync perform_throwing run_io handle_io]. unfold mkdir_io.
    cbn [parent]. unfold is_regular, is_directory. rewrite Hs, Hd.
    destruct (fs_fault e (fs_clock w0) (CallMkdir OUTPUT_DIR)).
    - intros [= <- <-]. cbn [fs_tick store is_dir]. rewrite Hs, Hd.
      repeat split; discriminate.
    - destruct (files (store w) OUTPUT_DIR) as [c|] eqn:Hf; cbn [is_some andb].
      + destruct (is_dir w OUTPUT_DIR); cbn [negb].
        * intros [= <- <-]. simpl. rewrite Hs, Hd, Hf.
          repeat split; try discriminate.
        * intros [= <- <-]. cbn [fs_tick store is_dir]. rewrite Hs, Hd.
          repeat split; discriminate.
      + intros [= <- <-]. simpl. rewrite Hs.
        repeat split; discriminate. }
  destruct (fs_fault e (fs_clock w) (CallExists OUTPUT_DIR)) eqn:Hex; cbn [negb].
  - intros Hrun. apply Hmk in Hrun; [|reflexivity|reflexivity].
    destruct Hrun as (H1 & H2 & H3 & H4 & H5 & _).
    repeat (split; [assumption|]).
    split; intros Hcalm; now rewrite Hcalm in Hex.
  - destruct (files (store w) OUTPUT_DIR) as [c|] eqn:Hf; cbn [is_some negb].
    + intros [= <- <-]. simpl. rewrite Hf.
      repeat split; try discriminate.
    + intros Hrun. apply Hmk in Hrun; [|reflexivity|reflexivity].
      destruct Hrun as (H1 & H2 & H3 & H4 & H5 & H6).
      repeat (split; [assumption|]).
      split; [|intros _ H; now contradiction H].
      intros Hcalm Ha. apply H6; [apply Hcalm | exact Ha].
Qed.

End EnvFileIO.

Lemma calm_quiet_disk (e : env) : calm (quiet_disk e).
Proof. intros n c. reflexivity. Qed.

(** A concrete instance: an [.env] of two lines, one of them an old entry. *)
Lemma env_round_trip_witness :
  let p := js "http://1.2.3.4:8080" in
  let w := disk_with (Some (js "A=1" ++ NL ++ js "PROXY_SERVER=http://old:1")) in
  fst (run_io (quiet_disk offline) (setEnvProxy p;; getCurrentProxyFromEnv) w)
  = Returned (Some p).
Proof.
  cbv zeta. apply (env_round_trip (quiet_disk offline)).
  - apply calm_quiet_disk.
  - reflexivity.
  - discriminate.
  - vm_compute. intuition discriminate.
  - vm_compute. intuition discriminate.
  - reflexivity.
  - reflexivity.
  - vm_compute. repeat constructor.
Defined.

(** C9 as first stated fails: a proxy string that ends in white space
    comes back trimmed, because the reader trims each line; a proxy string
    with a surrogate that has no partner comes back with U+FFFD in its
    place, because the file is UTF-8; and when the file cannot be written
    the call throws, these functions handle no error. *)
Lemma env_round_trip_counterexample :
  (let p := js "http://1.2.3.4:8080 " in
   p <> [] /\ ~ In 10%N p /\ ~ In 61%N p /\
   fst (run_io (quiet_disk offline) (setEnvProxy p;; getCurrentProxyFromEnv)
               (disk_with None))
   = Returned (Some (js "http://1.2.3.4:8080")) /\
   js "http://1.2.3.4:8080" <> p)
  /\
  (let p := js "http://x" ++ [55296%N] in
   p <> [] /\ ~ In 10%N p /\ ~ In 61%N p /\
   fst (run_io (quiet_disk offline) (setEnvProxy p;; getCurrentProxyFromEnv)
               (disk_with None))
   = Returned (Some (js "http://x" ++ [REPLACEMENT])) /\
   js "http://x" ++ [REPLACEMENT] <> p)
  /\
  (let p := js "http://1.2.3.4:8080" in
   p <> [] /\ ~ In 10%N p /\ ~ In 61%N p /\
   fst (run_io read_only_disk (setEnvProxy p;; getCurrentProxyFromEnv)
               (disk_with (Some (js "A=1"))))
   = Thrown EACCES).
Proof.
  repeat split; try discriminate;
    try (vm_compute; intuition discriminate); vm_compute; reflexivity.
Qed.

(** On an indented old entry the writer does less than its docstring says
    ("removing old references"): it tests the line as it is, the reader
    tests the trimmed line.  The old entry stays in the file, before the
    new one, and it is the old proxy that is read back. *)
Lemma setEnvProxy_keeps_indented_entry :
  let p := js "http://1.2.3.4:8080" in
  let w := disk_with (Some (js " PROXY_SERVER=http://old:1")) in
  fst (run_io (quiet_disk offline) (setEnvProxy p;; getCurrentProxyFromEnv) w)
  = Returned (Some (js "http://old:1")).
Proof. vm_compute. reflexivity. Qed.

Lemma env_round_trip_cut_witness :
  fst (run_io (quiet_disk offline)
         (setEnvProxy (js "http://h:1/?a" ++ 61%N :: js "b");; getCurrentProxyFromEnv)
         (disk_with (Some (js "A=1"))))
  = Returned (Some (js "http://h:1/?a")).
Proof.
  apply (env_round_trip_cut (quiet_disk offline)).
  - apply calm_quiet_disk.
  - reflexivity.
  - vm_compute. intuition discriminate.
  - vm_compute. intuition discriminate.
  - vm_compute. intuition discriminate.
  - reflexivity.
  - reflexivity.
  - vm_compute. repeat constructor.
Defined.

(* ================================================================== *)
(** * 19. The timer and the startup check *)
(* ================================================================== *)

Section TimerIO.

Variable e : env_io.

Lemma handle_io_interval {X : Type} (o : sync_op X) (w : world_io) :
  sets_timer o = false ->
  interval (store (snd (handle_io e o w))) = interval (store w).
Proof.
  destruct o; try discriminate; intros _; cbn [handle_io handle];
    unfold exists_io, mkdir_io, read_io, write_io;
    repeat match goal with
           | |- context [match ?x with _ => _ end] => destruct x
           end; reflexivity.
Qed.

Lemma handle_io_keeps_files {X : Type} (o : sync_op X) (w : world_io) (q : path) :
  is_some (files (store w) q) = true ->
  is_some (files (store (snd (handle_io e o w))) q) = true.
Proof.
  intros Hq. destruct o; cbn [handle_io handle];
    unfold exists_io, mkdir_io, read_io, write_io;
    repeat match goal with
           | |- context [match ?x with _ => _ end] => destruct x
           end; cbn; unfold set_file;
    repeat match goal with
           | |- context [if ?x then _ else _] => destruct x
           end; auto.
Qed.

(** Nothing the script does removes a file. *)
Lemma run_io_keeps_files {A : Type} (p : prog A) (w : world_io) (q : path) :
  is_some (files (store w) q) = true ->
  is_some (files (store (snd (run_io e p w))) q) = true.
Proof.
  revert w; induction p as [a|err|X o k IH|r k IH]; intros w Hq; cbn [run_io]; auto.
  pose proof (handle_io_keeps_files o w q Hq) as H.
  destruct (handle_io e o w) as [x w1]. apply IH. exact H.
Qed.

(** A program that never calls [setInterval] leaves the timer as it is. *)
Lemma run_io_no_timer {A : Type} (p : prog A) (w : world_io) :
  no_timer p -> interval (store (snd (run_io e p w))) = interval (store w).
Proof.
  revert w; induction p as [a|err|X o k IH|r k IH]; intros w Hp; cbn [run_io]; auto.
  - destruct Hp as [Ho Hk]. pose proof (handle_io_interval o w Ho) as H.
    destruct (handle_io e o w) as [x w1]. rewrite IH by apply Hk. exact H.
  - rewrite IH by apply Hp. reflexivity.
Qed.

Lemma no_timer_bind {A B : Type} (p : prog A) (f : A -> prog B) :
  no_timer p -> (forall a, no_timer (f a)) -> no_timer (bind p f).
Proof.
  intros Hp Hf. induction p as [a|err|X o k IH|r k IH]; simpl in *; auto.
  all: try (destruct Hp as [Ho Hk]; split; [exact Ho|]; intros x; now apply IH).
Qed.

Lemma no_timer_try_catch {A : Type} (p : prog A) (h : js_error -> prog A) :
  no_timer p -> (forall err, no_timer (h err)) -> no_timer (try_catch p h).
Proof.
  intros Hp Hh. induction p as [a|err|X o k IH|r k IH]; simpl in *; auto.
  all: try (destruct Hp as [Ho Hk]; split; [exact Ho|]; intros x; now apply IH).
Qed.

Lemma no_timer_console (l : level) (m : log_msg) : no_timer (perform (Console l m)).
Proof. simpl. split; [reflexivity | intros; exact I]. Qed.

Lemma no_timer_existsSync (p : path) : no_timer (existsSync p).
Proof. simpl. split; [reflexivity | intros; exact I]. Qed.

Lemma no_timer_readFileSync (p : path) : no_timer (readFileSync p).
Proof. simpl. split; [reflexivity | intros [err|c]; exact I]. Qed.

Lemma no_timer_writeFileSync (p : path) (s : jsstr) : no_timer (writeFileSync p s).
Proof. simpl. split; [reflexivity | intros [err|c]; exact I]. Qed.

Lemma no_timer_ensureOutputDir : no_timer ensureOutputDir.
Proof.
  unfold ensureOutputDir. apply no_timer_bind; [apply no_timer_existsSync|].
  intros [|]; cbn [negb]; [exact I|].
  apply no_timer_bind; [|intros _; apply no_timer_console].
  simpl. split; [reflexivity | intros [err|c]; exact I].
Qed.

Lemma no_timer_getCurrentProxyFromEnv : no_timer getCurrentProxyFromEnv.
Proof.
  unfold getCurrentProxyFromEnv. apply no_timer_bind; [apply no_timer_existsSync|].
  intros [|]; cbn [negb]; [|exact I].
  apply no_timer_bind; [apply no_timer_readFileSync | intros; exact I].
Qed.

Lemma no_timer_setEnvProxy (p : jsstr) : no_timer (setEnvProxy p).
Proof.
  unfold setEnvProxy. apply no_timer_bind; [apply no_timer_existsSync|]. intros ex.
  apply no_timer_bind.
  - destruct ex; [|exact I].
    apply no_timer_bind; [apply no_timer_readFileSync | intros; exact I].
  - intros envLines. apply no_timer_bind; [apply no_timer_writeFileSync|].
    intros _. apply no_timer_console.
Qed.

Lemma no_timer_validateSingleProxy (p : jsstr) : no_timer (validateSingleProxy p).
Proof.
  unfold validateSingleProxy. apply no_timer_try_catch; [|intros; exact I].
  apply no_timer_bind.
  - destruct (jsstr_eqb _ _); simpl; (split; [reflexivity|]); intros [err|a]; exact I.
  - intros a. simpl. intros [resp|err]; simpl; [|exact I].
    now destruct (status resp =? 200)%Z.
Qed.

Lemma no_timer_validate_loop (l valid : list jsstr) : no_timer (validate_loop l valid).
Proof.
  revert valid; induction l as [|p rest IH]; intros valid; [exact I|].
  cbn [validate_loop]. destruct (100 <=? List.length valid); [exact I|].
  apply no_timer_bind; [apply no_timer_validateSingleProxy|].
  intros [|]; (apply no_timer_bind; [apply no_timer_console|]); intros _; apply IH.
Qed.

Lemma no_timer_validateProxies (l : list jsstr) : no_timer (validateProxies l).
Proof.
  unfold validateProxies.
  apply no_timer_bind; [apply no_timer_console|]. intros _.
  apply no_timer_bind; [apply no_timer_validate_loop|]. intros valid.
  apply no_timer_bind; [apply no_timer_console|]. intros _. exact I.
Qed.

Lemma no_timer_fetch_source (src : jsstr) (acc : list jsstr) : no_timer (fetch_source src acc).
Proof.
  unfold fetch_source. apply no_timer_try_catch.
  - apply no_timer_bind; [apply no_timer_console|]. intros _.
    apply no_timer_bind; [simpl; intros [resp|err]; exact I|]. intros resp.
    destruct (_ && _); [|exact I].
    apply no_timer_bind; [destruct (data resp); exact I|]. intros pieces. exact I.
  - intros err. apply no_timer_bind; [apply no_timer_console|]. intros _. exact I.
Qed.

Lemma no_timer_fetch_sources (srcs : list jsstr) (acc : list jsstr) :
  no_timer (fetch_sources srcs acc).
Proof.
  revert acc; induction srcs as [|src srcs IH]; intros acc; [exact I|].
  cbn [fetch_sources]. apply no_timer_bind; [apply no_timer_fetch_source|].
  intros acc'. apply IH.
Qed.

Lemma no_timer_fetchGitHubProxies : no_timer fetchGitHubProxies.
Proof.
  unfold fetchGitHubProxies.
  apply no_timer_bind; [apply no_timer_console|]. intros _.
  apply no_timer_bind; [apply no_timer_fetch_sources|]. intros result.
  apply no_timer_bind; [apply no_timer_console|]. intros _. exact I.
Qed.

Lemma no_timer_scrapeValidateAndInject : no_timer scrapeValidateAndInject.
Proof.
  unfold scrapeValidateAndInject.
  apply no_timer_bind; [apply no_timer_fetchGitHubProxies|]. intros fetched.
  destruct (List.length fetched =? 0).
  { apply no_timer_bind; [apply no_timer_console | intros; exact I]. }
  apply no_timer_bind; [apply no_timer_validateProxies|]. intros valid.
  destruct (List.length valid =? 0).
  { apply no_timer_bind; [apply no_timer_console | intros; exact I]. }
  apply no_timer_bind; [apply no_timer_writeFileSync|]. intros _.
  apply no_timer_bind; [apply no_timer_console|]. intros _.
  apply no_timer_bind; [simpl; split; [reflexivity | intros; exact I]|]. intros k.
  apply no_timer_bind; [apply no_timer_setEnvProxy | intros; exact I].
Qed.

Lemma no_timer_checkCurrentProxy : no_timer checkCurrentProxy.
Proof.
  unfold checkCurrentProxy.
  apply no_timer_bind; [apply no_timer_getCurrentProxyFromEnv|]. intros cur.
  destruct (falsy cur).
  { apply no_timer_bind; [apply no_timer_console|]. intros _.
    apply no_timer_bind; [apply no_timer_scrapeValidateAndInject | intros; exact I]. }
  apply no_timer_bind; [apply no_timer_validateSingleProxy|]. intros good.
  destruct good; cbn [negb]; [apply no_timer_console|].
  apply no_timer_bind; [apply no_timer_console|]. intros _.
  apply no_timer_bind; [apply no_timer_scrapeValidateAndInject | intros; exact I].
Qed.

Lemma timer_last_bind {A B : Type} (p : prog A) (f : A -> prog B) :
  no_timer p -> (forall a, timer_last (f a)) -> timer_last (bind p f).
Proof.
  intros Hp Hf. induction p as [a|err|X o k IH|r k IH]; simpl in *; auto.
  - destruct Hp as [Ho Hk]. rewrite Ho. intros x. now apply IH.
Qed.

(** In [main], [setInterval] is the last thing done. *)
Lemma timer_last_main : timer_last main.
Proof.
  unfold main. apply timer_last_bind; [apply no_timer_ensureOutputDir|]. intros _.
  apply timer_last_bind; [apply no_timer_checkCurrentProxy|]. intros _.
  simpl. intros; exact I.
Qed.

Lemma advance_io_awaits_nothing {A : Type} (p : prog A) (w : world_io) :
  awaits_nothing p -> exists o, fst (advance_io e p w) = Finished o.
Proof.
  revert w; induction p as [a|err|X o k IH|r k IH]; intros w Hp; cbn [advance_io].
  - now eexists.
  - now eexists.
  - destruct (handle_io e o w) as [x w1]. apply IH, Hp.
  - destruct Hp.
Qed.

(** While a program that sets the timer last is suspended, the timer is as
    it was, and what remains of the program sets the timer last. *)
Lemma advance_io_timer_last {A : Type} (p : prog A) (w : world_io) :
  timer_last p ->
  forall r k w', advance_io e p w = (Pending r k, w') ->
  interval (store w') = interval (store w) /\ forall x, timer_last (k x).
Proof.
  revert w; induction p as [a|err|X o k IH|r k IH]; intros w Hp r' k' w';
    cbn [advance_io]; try discriminate.
  - cbn [timer_last] in Hp. destruct (sets_timer o) eqn:Ho.
    + destruct (handle_io e o w) as [x w1]. intros Hadv.
      destruct (advance_io_awaits_nothing (k x) w1 (Hp x)) as [o' Ho'].
      rewrite Hadv in Ho'. discriminate.
    + pose proof (handle_io_interval o w Ho) as Hi.
      destruct (handle_io e o w) as [x w1]. intros Hadv.
      destruct (IH x w1 (Hp x) _ _ _ Hadv) as [Hi' Hk].
      split; [now rewrite Hi' | exact Hk].
  - intros H. assert (Hk : k = k') by (inversion H; now subst).
    assert (Hw : w' = with_store (send r (store w)) w) by congruence.
    subst. split; [reflexivity | exact Hp].
Qed.

Lemma spawn_io_timer_last (p : prog unit) (w : world_io) :
  timer_last p ->
  (interval (store (disk (spawn_io e p w []))) = interval (store w) /\
   exists t, waiting (spawn_io e p w []) = [t] /\ forall x, timer_last (resume t x))
  \/ waiting (spawn_io e p w []) = [].
Proof.
  intros Hp. unfold spawn_io.
  destruct (advance_io e p w) as [[o|r k] w'] eqn:Hadv; [now right | left].
  destruct (advance_io_timer_last p w Hp r k w' Hadv) as [Hi Hk].
  split; [exact Hi|]. eexists. split; [reflexivity | exact Hk].
Qed.

(** X17: [main] awaits the whole startup check before it calls
    [setInterval].  From the start of the process on a store with no timer,
    and whatever answers arrive and whatever the file system does: as long
    as no tick has happened, either the startup check is still in progress
    (exactly one activation waits for an answer), the timer is not
    installed and no tick can happen, or nothing is in progress any more. *)
Theorem startup_before_timer (w : world_io) (evs : list event) (st : loop_io) :
  interval (store w) = None ->
  Forall (fun ev => is_tick ev = false) evs ->
  steps_io e (boot_io e w) evs = Some st ->
  (interval (store (disk st)) = None /\ step_io e st Tick = None /\
   List.length (waiting st) = 1)
  \/ waiting st = [].
Proof.
  intros Hnone Hevs Hsteps.
  assert (Hinv : forall st0,
            (interval (store (disk st0)) = None /\
             exists t, waiting st0 = [t] /\ forall x, timer_last (resume t x))
            \/ waiting st0 = [] ->
            steps_io e st0 evs = Some st ->
            (interval (store (disk st)) = None /\
             exists t, waiting st = [t] /\ forall x, timer_last (resume t x))
            \/ waiting st = []).
  { clear Hsteps. induction Hevs as [|ev evs Hev _ IH]; intros st0 Hst0 Hrun.
    - cbn in Hrun. injection Hrun as <-. exact Hst0.
    - cbn [steps_io] in Hrun. destruct ev as [|i res]; [discriminate|].
      cbn [step_io] in Hrun.
      destruct Hst0 as [(Hi & t & Hw & Ht)|Hw]; rewrite Hw in Hrun.
      + destruct i as [|i]; [|destruct i; discriminate].
        cbn [nth_error remove_nth] in Hrun. apply IH in Hrun; [exact Hrun|].
        destruct (spawn_io_timer_last (resume t res) (disk st0) (Ht res))
          as [(Hi' & Hrest)|Hdone]; [left | now right].
        split; [now rewrite Hi' | exact Hrest].
      + destruct i; discriminate. }
  assert (Hboot : (interval (store (disk (boot_io e w))) = None /\
                   exists t, waiting (boot_io e w) = [t] /\
                             forall x, timer_last (resume t x))
                  \/ waiting (boot_io e w) = []).
  { destruct (spawn_io_timer_last main w timer_last_main)
      as [(Hi & Hrest)|Hdone]; [left | now right].
    split; [unfold boot_io; now rewrite Hi | exact Hrest]. }
  destruct (Hinv _ Hboot Hsteps) as [(Hi & t & Hw & _)|Hw]; [left | now right].
  split; [exact Hi|]. split; [cbn [step_io]; now rewrite Hi | now rewrite Hw].
Qed.

End TimerIO.

(** The startup check of the scenario, its first request answered. *)
Lemma startup_before_timer_witness :
  exists st,
    steps_io (quiet_disk scenario) (boot_io (quiet_disk scenario) (disk_with None))
             [Settle 0 timed_out] = Some st /\
    ((interval (store (disk st)) = None /\
      step_io (quiet_disk scenario) st Tick = None /\
      List.length (waiting st) = 1)
     \/ waiting st = []).
Proof.
  assert (Hlen : option_map (fun st => List.length (waiting st))
                   (steps_io (quiet_disk scenario)
                      (boot_io (quiet_disk scenario) (disk_with None))
                      [Settle 0 timed_out]) = Some 1)
    by (vm_compute; reflexivity).
  destruct (steps_io (quiet_disk scenario)
              (boot_io (quiet_disk scenario) (disk_with None))
              [Settle 0 timed_out]) as [st|] eqn:Hsteps; [|discriminate].
  exists st. split; [reflexivity|].
  apply (startup_before_timer (quiet_disk scenario) (disk_with None)
           [Settle 0 timed_out] st).
  - reflexivity.
  - repeat constructor.
  - exact Hsteps.
Defined.

(* ================================================================== *)
(** * 20. The refresh and the check cycle on the real store *)
(* ================================================================== *)

Section CycleIO.

Variable e : env_io.

Lemma undisturbed_refl (w : world_io) : undisturbed w w.
Proof. now repeat split. Qed.

Lemma undisturbed_trans (w1 w2 w3 : world_io) :
  undisturbed w1 w2 -> undisturbed w2 w3 -> undisturbed w1 w3.
Proof.
  intros (H1 & H2 & H3 & H4) (K1 & K2 & K3 & K4).
  repeat split; congruence.
Qed.

Lemma undisturbed_with_store (w : world_io) (s : world) :
  same_store (store w) s -> undisturbed w (with_store s w).
Proof. intros (H1 & H2 & H3). now repeat split. Qed.

Lemma lines_read_undisturbed (w w' : world_io) :
  undisturbed w w' -> lines_read w' = lines_read w.
Proof. intros (H & _). unfold lines_read. now rewrite H. Qed.

Lemma is_directory_undisturbed (w w' : world_io) (p : path) :
  undisturbed w w' -> is_directory w' p = is_directory w p.
Proof. intros (H1 & H2 & _). unfold is_directory. now rewrite H1, H2. Qed.

Lemma run_io_console_log (m : log_msg) (w : world_io) :
  run_io e (console_log m) w = (Returned tt, with_store (print INFO m (store w)) w).
Proof. reflexivity. Qed.

Lemma run_io_console_error (m : log_msg) (w : world_io) :
  run_io e (console_error m) w = (Returned tt, with_store (print ERROR m (store w)) w).
Proof. reflexivity. Qed.

Lemma run_io_validateSingleProxy (p : jsstr) (w : world_io) :
  run_io e (validateSingleProxy p) w
  = (Returned (valid_at (net e) (clock (store w)) p),
     with_store (probed (net e) p (store w)) w).
Proof.
  rewrite run_io_fs_free by apply fs_free_validateSingleProxy.
  now rewrite run_validateSingleProxy.
Qed.

Lemma path_eqb_neq (q p : path) : q <> p -> path_eqb q p = false.
Proof. destruct q, p; try reflexivity; intros H; now contradiction H. Qed.

(** [getCurrentProxyFromEnv] changes nothing, whatever it returns. *)
Lemma getCurrentProxyFromEnv_frame (w : world_io) :
  exists o w',
    run_io e getCurrentProxyFromEnv w = (o, w') /\
    store w' = store w /\ is_dir w' = is_dir w.
Proof.
  unfold getCurrentProxyFromEnv.
  cbn [bind existsSync perform run_io handle_io]. unfold exists_io.
  destruct (fs_fault e (fs_clock w) (CallExists ENV_PATH)); cbn [negb].
  - do 2 eexists. split; [reflexivity|]. now split.
  - destruct (files (store w) ENV_PATH) as [content|] eqn:Hfile; cbn [is_some negb].
    + cbn [bind readFileSync perform_throwing run_io handle_io]. unfold read_io.
      cbn [fs_tick store is_dir fs_clock]. rewrite Hfile.
      destruct (fs_fault e (S (fs_clock w)) (CallRead ENV_PATH)).
      * do 2 eexists. split; [reflexivity|]. now split.
      * destruct (is_dir w ENV_PATH); do 2 eexists; (split; [reflexivity|]); now split.
    + do 2 eexists. split; [reflexivity|]. now split.
Qed.

(** What [writeFileSync] does. *)
Lemma write_io_spec (p : path) (s : jsstr) (w : world_io) :
  exists r w',
    write_io e p s w = (r, w') /\
    interval (store w') = interval (store w) /\
    (forall q, q <> p ->
               files (store w') q = files (store w) q /\ is_dir w' q = is_dir w q) /\
    ((exists err, r = inl err /\ writes (store w') = writes (store w)) \/
     (r = inr tt /\ writes (store w') = writes (store w) ++ [(p, s)] /\
      files (store w') p = Some (toWellFormed s) /\ is_dir w' p = false)) /\
    (calm e -> is_directory w p = false ->
     match parent p with Some d => is_directory w d = true | None => True end ->
     r = inr tt).
Proof.
  destruct (write_io e p s w) as [r w'] eqn:Hw. exists r, w'. split; [reflexivity|].
  revert Hw. unfold write_io, is_regular, is_directory.
  assert (Hself : path_eqb p p = true) by now destruct p.
  destruct (parent p) as [d|];
    repeat match goal with
           | |- context [match ?x with _ => _ end] => destruct x eqn:?
           end;
    intros [= <- <-]; cbn [fs_tick put_file log_write store is_dir writes files interval];
    unfold set_file, set_kind; rewrite ?Hself;
    (split; [reflexivity|]);
    (split; [intros q Hq; rewrite ?(path_eqb_neq q p Hq); now split|]);
    (split; [first [ right; repeat split; reflexivity
                   | left; eexists; split; reflexivity ]|]);
    intros Hcalm Hd Hpar; try reflexivity;
    try (rewrite Hcalm in *; discriminate);
    try congruence.
  all: destruct (is_some (files (store w) d)), (is_dir w d); simpl in *; congruence.
Qed.


Lemma run_io_writeFileSync (p : path) (s : jsstr) (w : world_io) :
  run_io e (writeFileSync p s) w
  = (match fst (write_io e p s w) with
     | inl err => Thrown err
     | inr _ => Returned tt
     end, snd (write_io e p s w)).
Proof.
  cbn [writeFileSync perform_throwing run_io handle_io].
  destruct (write_io e p s w) as [[err|[]] w']; reflexivity.
Qed.

(** The last two statements of [setEnvProxy], once the lines are read. *)
Lemma run_io_write_env (lines : list jsstr) (p : jsstr) (w0 w : world_io) :
  store w0 = store w -> is_dir w0 = is_dir w ->
  exists o w',
    run_io e (writeFileSync ENV_PATH (join (updated_env_lines lines p) NL);;
              console_log (UpdatedEnv p)) w0 = (o, w') /\
    (forall q, q <> ENV_PATH ->
               files (store w') q = files (store w) q /\ is_dir w' q = is_dir w q) /\
    ((exists err, o = Thrown err /\ writes (store w') = writes (store w)) \/
     (o = Returned tt /\
      writes (store w')
      = writes (store w) ++ [(ENV_PATH, join (updated_env_lines lines p) NL)] /\
      files (store w') ENV_PATH
      = Some (toWellFormed (join (updated_env_lines lines p) NL)) /\
      is_dir w' ENV_PATH = false)) /\
    (calm e -> is_directory w ENV_PATH = false -> o = Returned tt).
Proof.
  intros Hs Hd. rewrite run_io_bind, run_io_writeFileSync.
  destruct (write_io_spec ENV_PATH (join (updated_env_lines lines p) NL) w0)
    as (r & w1 & Hw & _ & Hfr & Hcases & Hok).
  rewrite Hw. cbn [fst snd]. unfold is_directory in *. rewrite Hs, Hd in *.
  destruct Hcases as [(err & -> & Hwr)|(-> & Hwr & Hf & Hk)]; unfold then_run_io.
  - exists (Thrown err), w1. split; [reflexivity|]. split; [exact Hfr|].
    split; [left; now exists err|].
    intros Hcalm Hdir. specialize (Hok Hcalm Hdir I). discriminate.
  - rewrite run_io_console_log. do 2 eexists. split; [reflexivity|].
    cbn [with_store store is_dir print files writes].
    split; [exact Hfr|]. split; [right; now repeat split | reflexivity].
Qed.

(** [setEnvProxy] under any behaviour of the file system. *)
Lemma run_io_setEnvProxy_any (p : jsstr) (w : world_io) :
  exists o w',
    run_io e (setEnvProxy p) w = (o, w') /\
    (forall q, q <> ENV_PATH ->
               files (store w') q = files (store w) q /\ is_dir w' q = is_dir w q) /\
    ((exists err, o = Thrown err /\ writes (store w') = writes (store w)) \/
     (exists lines,
        (lines = lines_read w \/ lines = []) /\ (calm e -> lines = lines_read w) /\
        o = Returned tt /\
        writes (store w')
        = writes (store w) ++ [(ENV_PATH, join (updated_env_lines lines p) NL)] /\
        files (store w') ENV_PATH
        = Some (toWellFormed (join (updated_env_lines lines p) NL)) /\
        is_dir w' ENV_PATH = false)) /\
    (calm e -> is_directory w ENV_PATH = false -> o = Returned tt).
Proof.
  assert (Htail : forall lines w0,
            store w0 = store w -> is_dir w0 = is_dir w ->
            (lines = lines_read w \/ lines = []) -> (calm e -> lines = lines_read w) ->
            exists o w',
              run_io e (writeFileSync ENV_PATH (join (updated_env_lines lines p) NL);;
                        console_log (UpdatedEnv p)) w0 = (o, w') /\
              (forall q, q <> ENV_PATH ->
                 files (store w') q = files (store w) q /\ is_dir w' q = is_dir w q) /\
              ((exists err, o = Thrown err /\ writes (store w') = writes (store w)) \/
               (exists lines,
                  (lines = lines_read w \/ lines = []) /\ (calm e -> lines = lines_read w) /\
                  o = Returned tt /\
                  writes (store w')
                  = writes (store w) ++ [(ENV_PATH, join (updated_env_lines lines p) NL)] /\
                  files (store w') ENV_PATH
                  = Some (toWellFormed (join (updated_env_lines lines p) NL)) /\
                  is_dir w' ENV_PATH = false)) /\
              (calm e -> is_directory w ENV_PATH = false -> o = Returned tt)).
  { intros lines w0 Hs Hd Hl Hc.
    destruct (run_io_write_env lines p w0 w Hs Hd) as (o & w' & Hrun & Hfr & Hcases & Hok).
    exists o, w'. repeat (split; [assumption|]). split; [|exact Hok].
    destruct Hcases as [H|H]; [now left | right]. exists lines. tauto. }
  unfold setEnvProxy, lines_read in *.
  cbn [bind existsSync perform run_io handle_io]. unfold exists_io.
  destruct (fs_fault e (fs_clock w) (CallExists ENV_PATH)) eqn:Hex.
  { apply Htail; [reflexivity | reflexivity | now right |].
    intros Hcalm. now rewrite Hcalm in Hex. }
  destruct (files (store w) ENV_PATH) as [content|] eqn:Hfile; cbn [is_some].
  - cbn [bind readFileSync perform_throwing run_io handle_io]. unfold read_io.
    cbn [fs_tick store is_dir fs_clock]. rewrite Hfile.
    destruct (fs_fault e (S (fs_clock w)) (CallRead ENV_PATH)) eqn:Hrd.
    { do 2 eexists. split; [reflexivity|]. split; [now split|].
      split; [left; eexists; now split|].
      intros Hcalm. now rewrite Hcalm in Hrd. }
    destruct (is_dir w ENV_PATH) eqn:Hk.
    { do 2 eexists. split; [reflexivity|]. split; [now split|].
      split; [left; eexists; now split|].
      intros _. unfold is_directory. now rewrite Hfile, Hk. }
    apply Htail; [reflexivity | reflexivity | now left | reflexivity].
  - apply Htail; [reflexivity | reflexivity | now left | reflexivity].
Qed.

(** The end of a refresh that found endpoints: the listing, the pick, the
    entry. *)
Lemma run_io_install (valid : list jsstr) (w : world_io) :
  valid <> [] -> List.length valid <= 100 ->
  exists o w',
    run_io e (writeFileSync OUTPUT_FILE (join valid NL);;
              console_log WroteValidProxies;;
              k <- math_random;;
              setEnvProxy (template (nth_error valid (floor_mul k (List.length valid))));;
              Ret true) w = (o, w') /\
    ((exists err, o = Thrown err /\ writes (store w') = writes (store w)) \/
     (exists err, o = Thrown err /\
                  writes (store w') = writes (store w) ++ [(OUTPUT_FILE, join valid NL)]) \/
     (exists chosen lines,
        In chosen valid /\
        (lines = lines_read w \/ lines = []) /\ (calm e -> lines = lines_read w) /\
        o = Returned true /\
        writes (store w')
        = writes (store w) ++ [(OUTPUT_FILE, join valid NL);
                               (ENV_PATH, join (updated_env_lines lines chosen) NL)] /\
        files (store w') ENV_PATH
        = Some (toWellFormed (join (updated_env_lines lines chosen) NL)) /\
        is_dir w' ENV_PATH = false)) /\
    (calm e -> is_directory w OUTPUT_DIR = true -> is_directory w OUTPUT_FILE = false ->
     is_directory w ENV_PATH = false -> o = Returned true).
Proof.
  intros Hne Hlen. rewrite run_io_bind, run_io_writeFileSync.
  destruct (write_io_spec OUTPUT_FILE (join valid NL) w)
    as (r & w1 & Hw & _ & Hfr & Hcases & Hok).
  rewrite Hw. cbn [fst snd].
  destruct Hcases as [(err & -> & Hwr)|(-> & Hwr & Hf & Hk)]; unfold then_run_io.
  { exists (Thrown err), w1. split; [reflexivity|]. split; [left; now exists err|].
    intros Hcalm Hdir Hfile _. specialize (Hok Hcalm Hfile Hdir). discriminate. }
  rewrite run_io_bind, run_io_console_log. unfold then_run_io.
  set (w2 := with_store (print INFO WroteValidProxies (store w1)) w1).
  rewrite run_io_bind.
  change (run_io e math_random w2)
    with (Returned (random (net e) (clock (store w2)) mod 2 ^ 53)%N,
          with_store (tick (store w2)) w2).
  unfold then_run_io. rewrite run_io_bind.
  set (w3 := with_store (tick (store w2)) w2).
  fold (chosen_from (net e) valid (store w2)).
  set (chosen := chosen_from (net e) valid (store w2)).
  assert (Hin : In chosen valid) by now apply chosen_from_In.
  destruct (Hfr ENV_PATH) as [Hfe Hke]; [discriminate|].
  assert (Hlines : lines_read w3 = lines_read w).
  { unfold lines_read. change (files (store w3)) with (files (store w1)). now rewrite Hfe. }
  assert (Hdir3 : is_directory w3 ENV_PATH = is_directory w ENV_PATH).
  { unfold is_directory. change (files (store w3)) with (files (store w1)).
    change (is_dir w3) with (is_dir w1). now rewrite Hfe, Hke. }
  destruct (run_io_setEnvProxy_any chosen w3)
    as (o & w4 & Hset & _ & Hcases & Hret).
  rewrite Hset. rewrite Hlines, Hdir3 in *.
  change (writes (store w3)) with (writes (store w1)) in Hcases. rewrite Hwr in Hcases.
  destruct Hcases as [(err & -> & Hwr4)|(lines & Hl & Hc & -> & Hwr4 & Hf4 & Hk4)];
    unfold then_run_io.
  - exists (Thrown err), w4. split; [reflexivity|].
    split; [right; left; now exists err|].
    intros Hcalm _ _ Henv. specialize (Hret Hcalm Henv). discriminate.
  - exists (Returned true), w4. split; [reflexivity|]. split; [|reflexivity].
    right; right. exists chosen, lines. repeat (split; [assumption|]).
    split; [reflexivity|]. split; [|now split].
    rewrite Hwr4, <- app_assoc. reflexivity.
Qed.


(** A refresh on the real store: the fetch and the validation touch no
    file; what remains is the installation. *)
Lemma run_io_scrape (w : world_io) :
  exists fetched s1,
    run (net e) fetchGitHubProxies (store w) = (Returned fetched, s1) /\
    fetched = fold_left add_line (yields (net e) (clock (store w)) GITHUB_SOURCES) [] /\
    same_store (store w) s1 /\
    ((fetched = [] /\
      run_io e scrapeValidateAndInject w
      = (Returned false, with_store (print ERROR NoProxiesFound s1) w))
     \/
     (fetched <> [] /\
      exists valid s2,
        run (net e) (validateProxies fetched) s1 = (Returned valid, s2) /\
        same_store s1 s2 /\ incl valid fetched /\ List.length valid <= 100 /\
        ((valid = [] /\
          run_io e scrapeValidateAndInject w
          = (Returned false, with_store (print ERROR NoValidProxies s2) w))
         \/
         (valid <> [] /\
          run_io e scrapeValidateAndInject w
          = run_io e (writeFileSync OUTPUT_FILE (join valid NL);;
                      console_log WroteValidProxies;;
                      k <- math_random;;
                      setEnvProxy (template (nth_error valid
                                               (floor_mul k (List.length valid))));;
                      Ret true) (with_store s2 w))))).
Proof.
  destruct (run_fetchGitHubProxies (net e) (store w)) as (s1 & Hfetch & Hst1 & _).
  set (fetched := fold_left add_line (yields (net e) (clock (store w)) GITHUB_SOURCES) []) in *.
  exists fetched, s1. split; [exact Hfetch|]. split; [reflexivity|]. split; [exact Hst1|].
  unfold scrapeValidateAndInject.
  rewrite run_io_bind, run_io_fs_free by apply fs_free_fetchGitHubProxies.
  rewrite Hfetch. unfold on_disk, then_run_io. cbn [fst snd].
  destruct fetched as [|x fetched]; [left; split; reflexivity | right].
  split; [discriminate|].
  destruct (run_validateProxies_any (net e) (x :: fetched) s1)
    as (valid & s2 & Hval & Hst2 & Hincl & Hlen).
  exists valid, s2. repeat (split; [assumption|]).
  cbn [List.length Nat.eqb].
  rewrite run_io_bind, run_io_fs_free by apply fs_free_validateProxies.
  cbn [with_store store]. rewrite Hval. unfold on_disk, then_run_io. cbn [fst snd].
  destruct valid as [|v valid]; [left; split; reflexivity | right].
  split; [discriminate | reflexivity].
Qed.

Lemma run_io_scrape_outcomes (w : world_io) :
  exists o w',
    run_io e scrapeValidateAndInject w = (o, w') /\
    ((o = Returned false /\ undisturbed w w') \/
     (exists err, o = Thrown err /\ writes (store w') = writes (store w)) \/
     (exists valid err,
        valid <> [] /\ o = Thrown err /\
        writes (store w') = writes (store w) ++ [(OUTPUT_FILE, join valid NL)]) \/
     (exists valid chosen lines,
        In chosen valid /\
        (lines = lines_read w \/ lines = []) /\ (calm e -> lines = lines_read w) /\
        o = Returned true /\
        writes (store w')
        = writes (store w) ++ [(OUTPUT_FILE, join valid NL);
                               (ENV_PATH, join (updated_env_lines lines chosen) NL)] /\
        files (store w') ENV_PATH
        = Some (toWellFormed (join (updated_env_lines lines chosen) NL)) /\
        is_dir w' ENV_PATH = false /\
        ~ In 10%N chosen /\ ends_with_whitespace chosen = false)) /\
    (calm e -> is_directory w OUTPUT_DIR = true -> is_directory w OUTPUT_FILE = false ->
     is_directory w ENV_PATH = false -> exists b, o = Returned b).
Proof.
  destruct (run_io_scrape w) as (fetched & s1 & _ & Hfetched & Hst1 & Hcases).
  destruct Hcases as [[_ Hrun]|(_ & valid & s2 & _ & Hst2 & Hincl & Hlen & Hcases)].
  { do 2 eexists. split; [exact Hrun|]. split; [|intros; now eexists].
    left. split; [reflexivity|]. apply undisturbed_with_store.
    eapply same_store_trans; [exact Hst1 | apply same_store_print]. }
  assert (Hu : undisturbed w (with_store s2 w)).
  { apply undisturbed_with_store. eapply same_store_trans; eassumption. }
  destruct Hcases as [[_ Hrun]|[Hne Hrun]].
  { do 2 eexists. split; [exact Hrun|]. split; [|intros; now eexists].
    left. split; [reflexivity|]. apply undisturbed_with_store.
    eapply same_store_trans; [|apply same_store_print].
    eapply same_store_trans; eassumption. }
  destruct (run_io_install valid (with_store s2 w) Hne Hlen)
    as (o & w' & Hinst & Hwrote & Hret).
  rewrite Hinst in Hrun. exists o, w'. split; [exact Hrun|].
  rewrite (lines_read_undisturbed _ _ Hu) in Hwrote.
  rewrite !(is_directory_undisturbed _ _ _ Hu) in Hret.
  destruct Hu as (_ & _ & Hwr & _). rewrite Hwr in Hwrote.
  split.
  - destruct Hwrote as [H|[(err & H)|(chosen & lines & Hin & Hl & Hc & Ho & Hw & Hf & Hk)]].
    + right; left. exact H.
    + right; right; left. exists valid, err. now split.
    + right; right; right. exists valid, chosen, lines.
      repeat (split; [assumption|]).
      apply Hincl in Hin. rewrite Hfetched in Hin.
      apply fetched_endpoint_facts in Hin. tauto.
  - intros Hcalm H1 H2 H3. exists true. now apply Hret.
Qed.

(** The shape of a check cycle on the real store. *)
Lemma run_io_checkCurrentProxy (w : world_io) :
  exists o0 w0,
    run_io e getCurrentProxyFromEnv w = (o0, w0) /\
    store w0 = store w /\ is_dir w0 = is_dir w /\
    match o0 with
    | Thrown err => run_io e checkCurrentProxy w = (Thrown err, w0)
    | Returned cur =>
        if falsy cur then
          run_io e checkCurrentProxy w
          = then_run_io
              (run_io e scrapeValidateAndInject
                 (with_store (print INFO NoProxyInEnv (store w0)) w0))
              (fun _ w' => (Returned tt, w'))
        else if valid_at (net e) (clock (store w0)) (template cur) then
          run_io e checkCurrentProxy w
          = (Returned tt,
             with_store (print INFO (StillValid (template cur))
                           (probed (net e) (template cur) (store w0))) w0)
        else
          run_io e checkCurrentProxy w
          = then_run_io
              (run_io e scrapeValidateAndInject
                 (with_store (print INFO NoLongerValid
                                (probed (net e) (template cur) (store w0))) w0))
              (fun _ w' => (Returned tt, w'))
    end.
Proof.
  destruct (getCurrentProxyFromEnv_frame w) as (o0 & w0 & Hget & Hs & Hd).
  exists o0, w0. repeat (split; [assumption|]).
  unfold checkCurrentProxy. rewrite run_io_bind, Hget. unfold then_run_io.
  destruct o0 as [cur|err]; [|reflexivity].
  destruct (falsy cur).
  - rewrite run_io_bind, run_io_console_log. unfold then_run_io.
    rewrite run_io_bind. reflexivity.
  - rewrite run_io_bind, run_io_validateSingleProxy. unfold then_run_io.
    destruct (valid_at (net e) (clock (store w0)) (template cur)); cbn [negb].
    + rewrite run_io_console_log. reflexivity.
    + rewrite run_io_bind, run_io_console_log. unfold then_run_io.
      rewrite run_io_bind. reflexivity.
Qed.

(** X15: a check cycle never touches the timer, whatever the network and
    the file system do.  Either it records no write, and then, if it
    returns, every file is as before; or it wrote the pool listing and
    threw before [.env] was written; or it wrote the listing and then
    [.env], with the entry of an endpoint of that listing, and returned.
    [.env] is never written without the listing.  The other lines of
    [.env] are those that were read, or none when [existsSync] failed. *)
Theorem check_cycle_outcomes (w : world_io) :
  exists o w',
    run_io e checkCurrentProxy w = (o, w') /\
    interval (store w') = interval (store w) /\
    ((writes (store w') = writes (store w) /\
      (o = Returned tt -> files (store w') = files (store w) /\ is_dir w' = is_dir w))
     \/
     (exists valid err,
        valid <> [] /\ o = Thrown err /\
        writes (store w') = writes (store w) ++ [(OUTPUT_FILE, join valid NL)])
     \/
     (exists valid chosen lines,
        In chosen valid /\ (lines = lines_read w \/ lines = []) /\
        (calm e -> lines = lines_read w) /\
        o = Returned tt /\
        writes (store w')
        = writes (store w) ++ [(OUTPUT_FILE, join valid NL);
                               (ENV_PATH, join (updated_env_lines lines chosen) NL)])).
Proof.
  destruct (run_io e checkCurrentProxy w) as [o w'] eqn:Hrun.
  exists o, w'. split; [reflexivity|]. split.
  { replace w' with (snd (run_io e checkCurrentProxy w)) by now rewrite Hrun.
    apply run_io_no_timer, no_timer_checkCurrentProxy. }
  assert (Hrefresh : forall w1,
            undisturbed w w1 ->
            then_run_io (run_io e scrapeValidateAndInject w1)
                        (fun _ w2 => (Returned tt, w2)) = (o, w') ->
            (writes (store w') = writes (store w) /\
             (o = Returned tt -> files (store w') = files (store w) /\ is_dir w' = is_dir w))
            \/
            (exists valid err,
               valid <> [] /\ o = Thrown err /\
               writes (store w') = writes (store w) ++ [(OUTPUT_FILE, join valid NL)])
            \/
            (exists valid chosen lines,
               In chosen valid /\ (lines = lines_read w \/ lines = []) /\
               (calm e -> lines = lines_read w) /\
               o = Returned tt /\
               writes (store w')
               = writes (store w) ++ [(OUTPUT_FILE, join valid NL);
                                      (ENV_PATH, join (updated_env_lines lines chosen) NL)])).
  { intros w1 Hu.
    destruct (run_io_scrape_outcomes w1) as (o1 & w2 & Hscrape & Hcases & _).
    rewrite Hscrape. rewrite (lines_read_undisturbed _ _ Hu) in Hcases.
    pose proof Hu as (Hf1 & Hd1 & Hw1 & _). rewrite Hw1 in Hcases.
    destruct Hcases as [[-> Hu2]|[(err & -> & Hwr)|[(valid & err & Hne & -> & Hwr)|
                        (valid & chosen & lines & Hin & Hl & Hc & -> & Hwr & _)]]];
      unfold then_run_io; intros [= <- <-].
    - left. destruct (undisturbed_trans _ _ _ Hu Hu2) as (Hf & Hd & Hw & _).
      split; [exact Hw | now split].
    - left. split; [exact Hwr | discriminate].
    - right; left. exists valid, err. now repeat split.
    - right; right. exists valid, chosen, lines. now repeat split. }
  destruct (run_io_checkCurrentProxy w) as (o0 & w0 & _ & Hs & Hd & Hshape).
  assert (Hu0 : forall s, same_store (store w0) s -> undisturbed w (with_store s w0)).
  { intros s (H1 & H2 & H3). repeat split; cbn [with_store store is_dir]; congruence. }
  rewrite Hrun in Hshape. destruct o0 as [cur|err].
  - destruct (falsy cur).
    + symmetry in Hshape. apply Hrefresh in Hshape; [exact Hshape|].
      apply Hu0, same_store_print.
    + destruct (valid_at (net e) (clock (store w0)) (template cur)).
      * injection Hshape as -> ->. left. cbn [with_store store is_dir print].
        pose proof (same_store_trans _ _ _
                      (same_store_probed (net e) (template cur) (store w0))
                      (same_store_print INFO (StillValid (template cur)) _))
          as (H1 & H2 & _).
        rewrite H1, H2, Hs, Hd. now repeat split.
      * symmetry in Hshape. apply Hrefresh in Hshape; [exact Hshape|].
        apply Hu0. eapply same_store_trans; [apply same_store_probed | apply same_store_print].
  - injection Hshape as -> ->. left. rewrite Hs, Hd. split; [reflexivity | discriminate].
Qed.


(** [ensureOutputDir], as far as [main] depends on it. *)
Lemma run_io_ensureOutputDir (w : world_io) :
  exists o w1,
    run_io e ensureOutputDir w = (o, w1) /\
    (o = Returned tt -> is_some (files (store w1) OUTPUT_DIR) = true) /\
    (calm e -> is_regular w OUTPUT_DIR = false ->
     o = Returned tt /\ is_directory w1 OUTPUT_DIR = true /\
     is_directory w1 ENV_PATH = is_directory w ENV_PATH /\
     is_directory w1 OUTPUT_FILE = is_directory w OUTPUT_FILE).
Proof.
  destruct (run_io e ensureOutputDir w) as [o w1] eqn:Hrun.
  exists o, w1. split; [reflexivity|].
  revert Hrun. unfold ensureOutputDir.
  cbn [bind existsSync perform run_io handle_io]. unfold exists_io.
  assert (Hmk : forall w0, store w0 = store w -> is_dir w0 = is_dir w ->
     run_io e (mkdirSync OUTPUT_DIR;; console_log CreatedDirectory) w0 = (o, w1) ->
     (o = Returned tt -> is_some (files (store w1) OUTPUT_DIR) = true) /\
     (fs_fault e (fs_clock w0) (CallMkdir OUTPUT_DIR) = None ->
      is_regular w OUTPUT_DIR = false ->
      o = Returned tt /\ is_directory w1 OUTPUT_DIR = true /\
      is_directory w1 ENV_PATH = is_directory w ENV_PATH /\
      is_directory w1 OUTPUT_FILE = is_directory w OUTPUT_FILE)).
  { intros w0 Hs Hd.
    cbn [bind mkdirSync perform_throwing run_io handle_io]. unfold mkdir_io.
    cbn [parent]. unfold is_regular, is_directory. rewrite Hs, Hd.
    destruct (fs_fault e (fs_clock w0) (CallMkdir OUTPUT_DIR)).
    - intros [= <- <-]. split; [discriminate | intros H; discriminate].
    - destruct (files (store w) OUTPUT_DIR) as [c|] eqn:Hf; cbn [is_some andb].
      + destruct (is_dir w OUTPUT_DIR) eqn:Hk; cbn [negb].
        * intros [= <- <-]. simpl. rewrite Hs, Hd, Hf, Hk. now repeat split.
        * intros [= <- <-]. split; [discriminate | intros _ H; discriminate].
      + intros [= <- <-]. simpl. rewrite Hs, Hd. now repeat split. }
  destruct (fs_fault e (fs_clock w) (CallExists OUTPUT_DIR)) eqn:Hex; cbn [negb].
  - intros Hrun. apply Hmk in Hrun as [H1 _]; [|reflexivity|reflexivity].
    split; [exact H1|]. intros Hcalm. now rewrite Hcalm in Hex.
  - destruct (files (store w) OUTPUT_DIR) as [c|] eqn:Hf; cbn [is_some negb].
    + intros [= <- <-]. simpl. rewrite Hf. split; [reflexivity|].
      intros _. unfold is_regular, is_directory. cbn [fs_tick store is_dir].
      rewrite Hf. cbn [is_some andb]. destruct (is_dir w OUTPUT_DIR); [|discriminate].
      now repeat split.
    + intros Hrun. apply Hmk in Hrun as [H1 H2]; [|reflexivity|reflexivity].
      split; [exact H1|]. intros Hcalm. apply H2, Hcalm.
Qed.

(** When the file operations succeed, a check cycle returns. *)
Lemma run_io_checkCurrentProxy_returns (w : world_io) :
  calm e -> is_directory w OUTPUT_DIR = true -> is_directory w OUTPUT_FILE = false ->
  is_directory w ENV_PATH = false ->
  fst (run_io e checkCurrentProxy w) = Returned tt.
Proof.
  intros Hcalm Hout Hlist Henv.
  destruct (run_io_getCurrentProxyFromEnv e w Hcalm Henv) as (w0' & Hget & _).
  destruct (run_io_checkCurrentProxy w) as (o0 & w0 & Hget' & Hs & Hd & Hshape).
  rewrite Hget in Hget'. injection Hget' as <- <-.
  assert (Hrefresh : forall s, same_store (store w0') s ->
            fst (then_run_io (run_io e scrapeValidateAndInject (with_store s w0'))
                             (fun _ w2 => (Returned tt, w2))) = Returned tt).
  { intros s (H1 & H2 & H3).
    destruct (run_io_scrape_outcomes (with_store s w0')) as (o1 & w2 & Hscrape & _ & Hret).
    rewrite Hscrape. unfold is_directory in Hret. cbn [with_store store is_dir] in Hret.
    rewrite H1, Hs, Hd in Hret. destruct (Hret Hcalm Hout Hlist Henv) as [b ->].
    reflexivity. }
  destruct (falsy (find_env_line (lines_read w))).
  - rewrite Hshape. apply Hrefresh, same_store_print.
  - destruct (valid_at _ _ _); rewrite Hshape; [reflexivity|].
    apply Hrefresh.
    eapply same_store_trans; [apply same_store_probed | apply same_store_print].
Qed.

(** X16: when [main] returns, the timer is installed with an interval of
    600000 ms and [output] exists; when it throws (the last lines of the
    script then end the process), the timer is as it was: none has been
    installed.  It returns whenever the file operations succeed: the
    system reports no failure, [output] is not a regular file, and neither
    [.env] nor the pool listing is a directory. *)
Theorem main_outcomes (w : world_io) :
  exists o w',
    run_io e main w = (o, w') /\
    (o = Returned tt ->
     interval (store w') = Some 600000%N /\
     is_some (files (store w') OUTPUT_DIR) = true) /\
    (forall err, o = Thrown err -> interval (store w') = interval (store w)) /\
    (calm e -> shape_ok w -> o = Returned tt).
Proof.
  destruct (run_io_ensureOutputDir w) as (o1 & w1 & Hdir & Hexists & Hcalm1).
  pose proof (run_io_no_timer e ensureOutputDir w no_timer_ensureOutputDir) as Hi1.
  rewrite Hdir in Hi1. cbn [snd] in Hi1.
  unfold main. rewrite run_io_bind, Hdir. unfold then_run_io.
  destruct o1 as [[]|err1].
  - destruct (run_io e checkCurrentProxy w1) as [o2 w2] eqn:Hcheck.
    pose proof (run_io_no_timer e checkCurrentProxy w1 no_timer_checkCurrentProxy) as Hi2.
    pose proof (run_io_keeps_files e checkCurrentProxy w1 OUTPUT_DIR (Hexists eq_refl)) as Hk2.
    rewrite Hcheck in Hi2, Hk2. cbn [snd] in Hi2, Hk2.
    rewrite run_io_bind, Hcheck. unfold then_run_io.
    destruct o2 as [[]|err2].
    + do 2 eexists. split; [reflexivity|].
      split; [intros _; split; [reflexivity | exact Hk2]|].
      split; [discriminate | reflexivity].
    + do 2 eexists. split; [reflexivity|]. split; [discriminate|].
      split; [intros _ _; congruence|].
      intros Hcalm (Hreg & Henv & Hlist).
      destruct (Hcalm1 Hcalm Hreg) as (_ & Hout1 & Henv1 & Hlist1).
      pose proof (run_io_checkCurrentProxy_returns w1 Hcalm Hout1) as Hret.
      rewrite Hcheck in Hret. cbn [fst] in Hret.
      rewrite Hlist1, Henv1 in Hret. specialize (Hret Hlist Henv). discriminate.
  - do 2 eexists. split; [reflexivity|]. split; [discriminate|].
    split; [intros _ _; exact Hi1|].
    intros Hcalm (Hreg & _). destruct (Hcalm1 Hcalm Hreg) as (H & _). discriminate.
Qed.

(** X14: when the file operations succeed, after a refresh that returns
    [true] on an [.env] without indented entries, the next
    [getCurrentProxyFromEnv()] returns the endpoint that was chosen, one of
    the endpoints of the pool listing just written, provided that endpoint
    holds no ['='] and is well-formed. *)
Theorem refresh_then_read (w w' : world_io) :
  calm e ->
  run_io e scrapeValidateAndInject w = (Returned true, w') ->
  Forall (fun l => indented_entry l = false) (lines_read w) ->
  exists valid chosen,
    In chosen valid /\
    writes (store w')
    = writes (store w) ++ [(OUTPUT_FILE, join valid NL);
                           (ENV_PATH, join (updated_env_lines (lines_read w) chosen) NL)] /\
    (~ In 61%N chosen -> well_formed chosen ->
     fst (run_io e getCurrentProxyFromEnv w') = Returned (Some chosen)).
Proof.
  intros Hcalm Hrun Htidy.
  destruct (run_io_scrape_outcomes w) as (o & w2 & Hscrape & Hcases & _).
  rewrite Hrun in Hscrape. injection Hscrape as <- <-.
  destruct Hcases as [[H _]|[(err & H & _)|[(valid & err & _ & H & _)|
                     (valid & chosen & lines & Hin & _ & Hc & _ & Hwr & Hf & Hk & Hnl & Hws)]]];
    try discriminate.
  rewrite (Hc Hcalm) in *. exists valid, chosen.
  split; [exact Hin|]. split; [exact Hwr|]. intros Heq Hwf.
  destruct (run_io_getCurrentProxyFromEnv e w' Hcalm) as (w3 & Hget & _).
  { unfold is_directory. rewrite Hk. apply andb_false_r. }
  rewrite Hget. cbn [fst]. f_equal.
  rewrite (lines_read_after_set chosen w w' Hnl Hwf Hf).
  now apply find_env_line_updated.
Qed.

End CycleIO.

Section HealIO.

Variable ok : jsstr -> bool.
Variable serve : jsstr -> axios_result.
Variable k : N.

Lemma valid_at_steady (t : nat) (p : jsstr) : valid_at (steady ok serve k) t p = ok p.
Proof. unfold valid_at. simpl. now destruct (ok p). Qed.

Lemma yields_steady (t t' : nat) (srcs : list jsstr) :
  yields (steady ok serve k) t srcs = yields (steady ok serve k) t' srcs.
Proof.
  revert t t'; induction srcs as [|src srcs IH]; intros t t'; [reflexivity|].
  cbn [yields]. f_equal. apply IH.
Qed.

(** Under fixed verdicts, validation keeps the first 100 candidates that
    validate. *)
Lemma run_validateProxies_steady (l : list jsstr) (s : world) :
  fst (run (steady ok serve k) (validateProxies l) s) = Returned (firstn 100 (filter ok l)).
Proof.
  destruct (run_validate_loop (steady ok serve k) ok valid_at_steady l []
              (print INFO ValidatingFetched s)) as (s' & Hrun & _).
  unfold validateProxies. rewrite run_bind.
  change (run (steady ok serve k) (console_log ValidatingFetched) s)
    with (Returned tt, print INFO ValidatingFetched s).
  unfold then_run. rewrite run_bind, Hrun. unfold then_run.
  cbn [app List.length]. rewrite tested_filter, Nat.sub_0_r. reflexivity.
Qed.

(** X20: a check cycle repairs the configuration.  When the file
    operations succeed, in an environment that does not change with time
    in which the two lists offer at least one endpoint that validates and
    every offered endpoint is well-formed and free of ['='], and on an
    [.env] without indented entries: after [checkCurrentProxy],
    [getCurrentProxyFromEnv()] returns a non-empty proxy that validates,
    whatever was configured before. *)
Theorem check_cycle_heals (fetched : list jsstr) (w : world_io) :
  is_directory w OUTPUT_DIR = true ->
  is_directory w OUTPUT_FILE = false ->
  is_directory w ENV_PATH = false ->
  fst (run_io (quiet_disk (steady ok serve k)) fetchGitHubProxies w) = Returned fetched ->
  Forall (fun l => indented_entry l = false) (lines_read w) ->
  Forall (fun x => ~ In 61%N x /\ well_formed x) fetched ->
  Exists (fun x => ok x = true) fetched ->
  exists w' p,
    run_io (quiet_disk (steady ok serve k)) checkCurrentProxy w = (Returned tt, w') /\
    fst (run_io (quiet_disk (steady ok serve k)) getCurrentProxyFromEnv w')
    = Returned (Some p) /\
    p <> [] /\
    fst (run_io (quiet_disk (steady ok serve k)) (validateSingleProxy p) w')
    = Returned true.
Proof.
  set (e := quiet_disk (steady ok serve k)).
  intros Hout Hlist Henv Hfetch Htidy Hgood Hsome.
  assert (Hcalm : calm e) by (intros n c; reflexivity).
  assert (Hvalidates : forall p w', ok p = true ->
            fst (run_io e (validateSingleProxy p) w') = Returned true).
  { intros p w' Hp. rewrite run_io_validateSingleProxy. cbn [fst].
    change (net e) with (steady ok serve k). now rewrite valid_at_steady, Hp. }
  assert (Hfetched : forall t,
            fetched = fold_left add_line (yields (steady ok serve k) t GITHUB_SOURCES) []).
  { intros t. rewrite run_io_fs_free in Hfetch by apply fs_free_fetchGitHubProxies.
    destruct (run_fetchGitHubProxies (net e) (store w)) as (s1 & Hrun & _).
    unfold on_disk in Hfetch. rewrite Hrun in Hfetch.
    assert (H : Returned (A := list jsstr) fetched
                = Returned (fold_left add_line
                              (yields (net e) (clock (store w)) GITHUB_SOURCES) []))
      by (symmetry; exact Hfetch).
    assert (H' : fetched = fold_left add_line
                             (yields (net e) (clock (store w)) GITHUB_SOURCES) [])
      by congruence.
    rewrite H'. change (net e) with (steady ok serve k).
    now rewrite (yields_steady (clock (store w)) t). }
  assert (Hrefresh : forall w1,
            undisturbed w w1 ->
            exists w' p,
              run_io e scrapeValidateAndInject w1 = (Returned true, w') /\
              fst (run_io e getCurrentProxyFromEnv w') = Returned (Some p) /\
              p <> [] /\ ok p = true).
  { intros w1 Hu.
    destruct (run_io_scrape e w1) as (fetched1 & s1 & _ & Hf1 & Hst1 & Hcases).
    change (net e) with (steady ok serve k) in Hf1. rewrite <- Hfetched in Hf1. subst fetched1.
    destruct Hcases as [[Hnil _]|(_ & valid & s2 & Hval & Hst2 & Hincl & Hlen & Hcases)].
    { rewrite Hnil in Hsome. inversion Hsome. }
    assert (Hvalid : valid = firstn 100 (filter ok fetched)).
    { pose proof (run_validateProxies_steady fetched s1) as H.
      change (net e) with (steady ok serve k) in Hval. rewrite Hval in H.
      cbn [fst] in H. congruence. }
    assert (Hne : valid <> []).
    { rewrite Hvalid. apply Exists_exists in Hsome as (x & Hx & Hokx).
      assert (Hin : In x (filter ok fetched)) by (apply filter_In; now split).
      destruct (filter ok fetched); [destruct Hin | discriminate]. }
    destruct Hcases as [[Hnil _]|[_ Hrun]]; [contradiction|].
    assert (Hu2 : undisturbed w (with_store s2 w1)).
    { eapply undisturbed_trans; [exact Hu|]. apply undisturbed_with_store.
      eapply same_store_trans; eassumption. }
    destruct (run_io_install e valid (with_store s2 w1) Hne Hlen)
      as (o & w' & Hinst & Hwrote & Hret).
    rewrite !(is_directory_undisturbed _ _ _ Hu2) in Hret.
    specialize (Hret Hcalm Hout Hlist Henv). subst o.
    destruct Hwrote as [(err & H & _)|[(err & H & _)|
                       (chosen & lines & Hin & _ & Hc & _ & _ & Hf & Hk)]];
      try discriminate.
    rewrite (Hc Hcalm), (lines_read_undisturbed _ _ Hu2) in Hf.
    assert (Hfacts : In chosen fetched /\ ok chosen = true).
    { rewrite Hvalid in Hin.
      assert (Hin' : In chosen (filter ok fetched)).
      { rewrite <- (firstn_skipn 100 (filter ok fetched)). apply in_or_app. now left. }
      apply filter_In in Hin'. exact Hin'. }
    destruct Hfacts as [Hinf Hokc].
    pose proof Hinf as Hinf'. rewrite (Hfetched 0) in Hinf'.
    apply fetched_endpoint_facts in Hinf' as (Hcne & _ & Hnl & Hws).
    rewrite Forall_forall in Hgood. destruct (Hgood _ Hinf) as [Heq Hwf].
    exists w', chosen. split; [now rewrite Hrun|].
    split; [|now split].
    destruct (run_io_getCurrentProxyFromEnv e w' Hcalm) as (w3 & Hget & _).
    { unfold is_directory. rewrite Hk. apply andb_false_r. }
    rewrite Hget. cbn [fst]. f_equal.
    rewrite (lines_read_after_set chosen w w' Hnl Hwf Hf).
    now apply find_env_line_updated. }
  destruct (run_io_getCurrentProxyFromEnv e w Hcalm Henv) as (w0' & Hget & Hs0 & Hd0).
  destruct (run_io_checkCurrentProxy e w) as (o0 & w0 & Hget' & Hs & Hd & Hshape).
  rewrite Hget in Hget'. injection Hget' as <- <-.
  assert (Hu0 : forall s, same_store (store w0') s -> undisturbed w (with_store s w0')).
  { intros s (H1 & H2 & H3). repeat split; cbn [with_store store is_dir]; congruence. }
  destruct (find_env_line (lines_read w)) as [[|c cur]|] eqn:Hcur; cbn [falsy template] in Hshape.
  - destruct (Hrefresh (with_store (print INFO NoProxyInEnv (store w0')) w0'))
      as (w' & p & Hrun & Hread & Hp & Hokp); [apply Hu0, same_store_print|].
    exists w', p. rewrite Hshape, Hrun. split; [reflexivity|].
    split; [exact Hread|]. split; [exact Hp | now apply Hvalidates].
  - change (net e) with (steady ok serve k) in Hshape. rewrite valid_at_steady in Hshape.
    destruct (ok (c :: cur)) eqn:Hokc.
    + eexists. exists (c :: cur). split; [exact Hshape|].
      split; [|split; [discriminate | now apply Hvalidates]].
      match goal with |- fst (run_io e getCurrentProxyFromEnv ?w1) = _ =>
        assert (Hu : undisturbed w w1)
          by (apply Hu0; eapply same_store_trans;
              [apply same_store_probed | apply same_store_print]);
        destruct (run_io_getCurrentProxyFromEnv e w1 Hcalm) as (w3 & Hget3 & _)
      end.
      { now rewrite (is_directory_undisturbed _ _ _ Hu). }
      rewrite Hget3. cbn [fst]. rewrite (lines_read_undisturbed _ _ Hu). now f_equal.
    + match type of Hshape with context [run_io e scrapeValidateAndInject ?w1] =>
        destruct (Hrefresh w1) as (w' & p & Hrun & Hread & Hp & Hokp)
      end.
      { apply Hu0. eapply same_store_trans; [apply same_store_probed | apply same_store_print]. }
      exists w', p. rewrite Hshape, Hrun. split; [reflexivity|].
      split; [exact Hread|]. split; [exact Hp | now apply Hvalidates].
  - destruct (Hrefresh (with_store (print INFO NoProxyInEnv (store w0')) w0'))
      as (w' & p & Hrun & Hread & Hp & Hokp); [apply Hu0, same_store_print|].
    exists w', p. rewrite Hshape, Hrun. split; [reflexivity|].
    split; [exact Hread|]. split; [exact Hp | now apply Hvalidates].
Qed.

End HealIO.

Lemma refresh_then_read_witness :
  exists w' valid chosen,
    run_io (quiet_disk scenario) scrapeValidateAndInject (disk_with None)
    = (Returned true, w') /\
    In chosen valid /\
    (~ In 61%N chosen -> well_formed chosen ->
     fst (run_io (quiet_disk scenario) getCurrentProxyFromEnv w') = Returned (Some chosen)).
Proof.
  assert (Htrue : fst (run_io (quiet_disk scenario) scrapeValidateAndInject (disk_with None))
                  = Returned true) by (vm_compute; reflexivity).
  destruct (run_io (quiet_disk scenario) scrapeValidateAndInject (disk_with None))
    as [o w'] eqn:Hrun.
  cbn [fst] in Htrue. subst o.
  destruct (refresh_then_read (quiet_disk scenario) (disk_with None) w')
    as (valid & chosen & Hin & _ & Hread).
  - apply calm_quiet_disk.
  - exact Hrun.
  - constructor.
  - exists w', valid, chosen. now repeat split.
Defined.

(** The scenario, on an [.env] that names a proxy no longer answering. *)
Lemma check_cycle_heals_witness :
  exists w' p,
    run_io (quiet_disk scenario) checkCurrentProxy
           (disk_with (Some (js "PROXY_SERVER=http://5.6.7.8:3128")))
    = (Returned tt, w') /\
    fst (run_io (quiet_disk scenario) getCurrentProxyFromEnv w') = Returned (Some p) /\
    p <> [] /\
    fst (run_io (quiet_disk scenario) (validateSingleProxy p) w') = Returned true.
Proof.
  apply (check_cycle_heals scenario_ok scenario_serve (2 ^ 52)
           [js "http://1.2.3.4:8080"; js "http://5.6.7.8:3128"; js "https://9.9.9.9:443"]
           (disk_with (Some (js "PROXY_SERVER=http://5.6.7.8:3128")))).
  - reflexivity.
  - reflexivity.
  - reflexivity.
  - vm_compute. reflexivity.
  - vm_compute. repeat constructor.
  - repeat constructor; try reflexivity; vm_compute; intuition discriminate.
  - apply Exists_cons_hd. reflexivity.
Defined.
